(** * watchurl: a shallow embedding of the change-detection pipeline

    The development follows the Go program: byte strings and the
    [strings] primitives it calls, the state-file naming of [statePath],
    the diff renderer [reportDiffs], the fetch/compare/persist cycle
    [diffURL] (in its two revisions) and the timer-driven loop [watch]. *)

From Stdlib Require Import ZArith Ascii String List Lia DecimalString.
From stdpp Require Import gmap strings list fin_maps.

Local Open Scope Z_scope.

(** ** Byte strings

    A Go [string] is a sequence of bytes; [string] over [ascii] is the same
    data.  Indices are Go [int]s: they range over [-1 .. len s], and [len s]
    fits an [int], so index arithmetic is exact and is written in [Z]. *)

Module GoStrings.

Definition nl : ascii := "010"%char.
Definition esc : ascii := "027"%char.

Definition len (s : string) : Z := Z.of_nat (String.length s).

(** [strings.IndexByte]: index of the first [c] in [s], or [-1]. *)
Fixpoint IndexByte (s : string) (c : ascii) : Z :=
  match s with
  | EmptyString => -1
  | String a r =>
      if Ascii.eqb a c then 0
      else let i := IndexByte r c in
           if i <? 0 then -1 else i + 1
  end.

(** [strings.LastIndexByte]: index of the last [c] in [s], or [-1]. *)
Fixpoint LastIndexByte (s : string) (c : ascii) : Z :=
  match s with
  | EmptyString => -1
  | String a r =>
      let i := LastIndexByte r c in
      if 0 <=? i then i + 1
      else if Ascii.eqb a c then 0 else -1
  end.

Fixpoint take (n : nat) (s : string) : string :=
  match n, s with
  | O, _ => EmptyString
  | S _, EmptyString => EmptyString
  | S k, String a r => String a (take k r)
  end.

Fixpoint drop (n : nat) (s : string) : string :=
  match n, s with
  | O, _ => s
  | S _, EmptyString => EmptyString
  | S k, String _ r => drop k r
  end.

(** The slice expressions [s[:i]] and [s[i:]].  Out of range they panic:
    [None]. *)
Definition slice_to (s : string) (i : Z) : option string :=
  if (0 <=? i) && (i <=? len s) then Some (take (Z.to_nat i) s) else None.

Definition slice_from (s : string) (i : Z) : option string :=
  if (0 <=? i) && (i <=? len s) then Some (drop (Z.to_nat i) s) else None.

(** Number of occurrences of a byte. *)
Fixpoint count (c : ascii) (s : string) : nat :=
  match s with
  | EmptyString => O
  | String a r => (if Ascii.eqb a c then 1 else 0)%nat + count c r
  end.

(** [strings.HasPrefix s (String c "")] for a one-byte prefix. *)
Definition HasPrefixByte (s : string) (c : ascii) : bool :=
  match s with
  | String a _ => Ascii.eqb a c
  | EmptyString => false
  end.

(** [strings.Replace s (String old "") new 1]: the first occurrence of the
    byte [old] is replaced by [new]. *)
Fixpoint ReplaceFirstByte (s : string) (old : ascii) (new : string) : string :=
  match s with
  | EmptyString => EmptyString
  | String a r =>
      if Ascii.eqb a old then new +:+ r
      else String a (ReplaceFirstByte r old new)
  end.

(** The verb [%d] of [fmt]. *)
Definition itoa (z : Z) : string := NilZero.string_of_int (Z.to_int z).

End GoStrings.
Import GoStrings.


(** ** [crypto/sha1] and [encoding/hex]

    [sha1.Sum] after FIPS 180-4, on bytes held as [Z] in [0, 256) and 32-bit
    words held as [Z] in [0, 2^32) with the wrap-around written out. *)

Module sha1.

Definition w32 (x : Z) : Z := x mod 2 ^ 32.

Definition rotl (n x : Z) : Z :=
  w32 (Z.lor (Z.shiftl x n) (Z.shiftr x (32 - n))).

Definition not32 (x : Z) : Z := Z.lxor x (2 ^ 32 - 1).

Definition bytes_of_string (s : string) : list Z :=
  map (fun a => Z.of_N (N_of_ascii a)) (list_ascii_of_string s).

(** [n] bytes of [x], most significant first. *)
Definition be_bytes (n : nat) (x : Z) : list Z :=
  map (fun i => Z.land (Z.shiftr x (8 * Z.of_nat i)) 255) (rev (seq 0 n)).

Definition pad (m : list Z) : list Z :=
  let l := Z.of_nat (length m) in
  m ++ 128 :: repeat 0 (Z.to_nat ((55 - l) mod 64))
    ++ be_bytes 8 ((8 * l) mod 2 ^ 64).

Fixpoint words (bs : list Z) : list Z :=
  match bs with
  | a :: b :: c :: d :: r =>
      (a * 2 ^ 24 + b * 2 ^ 16 + c * 2 ^ 8 + d) :: words r
  | _ => []
  end.

(** The message schedule, most recent word first. *)
Fixpoint schedule (n : nat) (w : list Z) : list Z :=
  match n with
  | O => w
  | S k =>
      let x := Z.lxor (Z.lxor (nth 2 w 0) (nth 7 w 0))
                      (Z.lxor (nth 13 w 0) (nth 15 w 0)) in
      schedule k (rotl 1 x :: w)
  end.

Definition f (t : nat) (b c d : Z) : Z :=
  if Nat.ltb t 20 then Z.lor (Z.land b c) (Z.land (not32 b) d)
  else if Nat.ltb t 40 then Z.lxor (Z.lxor b c) d
  else if Nat.ltb t 60 then
    Z.lor (Z.lor (Z.land b c) (Z.land b d)) (Z.land c d)
  else Z.lxor (Z.lxor b c) d.

Definition K (t : nat) : Z :=
  if Nat.ltb t 20 then 0x5A827999
  else if Nat.ltb t 40 then 0x6ED9EBA1
  else if Nat.ltb t 60 then 0x8F1BBCDC
  else 0xCA62C1D6.

Definition state : Type := Z * Z * Z * Z * Z.

Definition round (s : state) (tw : nat * Z) : state :=
  let '(a, b, c, d, e) := s in
  let '(t, w) := tw in
  let tmp := w32 (rotl 5 a + f t b c d + e + K t + w) in
  (tmp, a, rotl 30 b, c, d).

Definition block (h : state) (w16 : list Z) : state :=
  let w := rev (schedule 64 (rev w16)) in
  let '(a, b, c, d, e) := fold_left round (combine (seq 0 80) w) h in
  let '(h0, h1, h2, h3, h4) := h in
  (w32 (h0 + a), w32 (h1 + b), w32 (h2 + c), w32 (h3 + d), w32 (h4 + e)).

Fixpoint blocks (n : nat) (h : state) (ws : list Z) : state :=
  match n with
  | O => h
  | S k => blocks k (block h (firstn 16 ws)) (skipn 16 ws)
  end.

Definition init : state :=
  (0x67452301, 0xEFCDAB89, 0x98BADCFE, 0x10325476, 0xC3D2E1F0).

(** [sha1.Sum]: the 20 bytes of the digest. *)
Definition Sum (data : list Z) : list Z :=
  let ws := words (pad data) in
  let '(h0, h1, h2, h3, h4) := blocks (length ws / 16) init ws in
  be_bytes 4 h0 ++ be_bytes 4 h1 ++ be_bytes 4 h2 ++ be_bytes 4 h3
    ++ be_bytes 4 h4.

End sha1.

Module hex.

Definition digit (n : Z) : ascii :=
  nth (Z.to_nat n)
    ["0"; "1"; "2"; "3"; "4"; "5"; "6"; "7"; "8"; "9";
     "a"; "b"; "c"; "d"; "e"; "f"]%char "0"%char.

(** [hex.EncodeToString]. *)
Fixpoint EncodeToString (src : list Z) : string :=
  match src with
  | [] => EmptyString
  | b :: r => String (digit (b / 16)) (String (digit (b mod 16)) (EncodeToString r))
  end.

End hex.

(** ** Duration arithmetic

    [time.Duration] is an [int64] count of nanoseconds; the flag package
    accepts any value of the type, so sums of durations wrap. *)

Module Duration.

Definition min_int64 : Z := - 2 ^ 63.
Definition max_int64 : Z := 2 ^ 63 - 1.

(** Two's-complement reduction to [int64]. *)
Definition wrap (x : Z) : Z := (x + 2 ^ 63) mod 2 ^ 64 - 2 ^ 63.

Definition add (a b : Z) : Z := wrap (a + b).

Definition Nanosecond : Z := 1.

End Duration.

(** ** Errors, flags and the outside world *)

(** The [error] values the program can see.  Only two distinctions matter to
    the code: whether [os.IsNotExist] holds, and which context error was
    wrapped. *)
Inductive error : Type :=
| ErrNotExist (path : string)   (* *fs.PathError wrapping ENOENT *)
| ErrOther (msg : string)       (* any other failure of a library call *)
| ErrCanceled                   (* context.Canceled *)
| ErrDeadlineExceeded           (* context.DeadlineExceeded *)
| ErrChecking (addr : string) (cause : error).
    (* fmt.Errorf("checking %s, context error: %w", addr, cause) *)

(** [os.IsNotExist]: [false] on [nil]; it does not look through [%w]. *)
Definition os_IsNotExist (err : option error) : bool :=
  match err with
  | Some (ErrNotExist _) => true
  | _ => false
  end.

(** The command-line flags read by the functions below. *)
Record Flags : Type := {
  stateDir : string;
  requestTimeout : Z;
  logFullDiff : bool;
  macNotify : bool;
  macClipboard : bool
}.

(** What the environment answers during one tick: the network, the extractor,
    the operating system, the contexts and the random source.  A fault of
    [None] lets the operation act on the files of the model. *)
Record Oracle : Type := {
  UserHomeDir : string * option error;
  NewRequest_err : string -> option error;
  Do_err : string -> option error;
  ReadAll : string -> string * option error;
  html2text_FromString : string -> string * option error;
  ReadFile_fault : string -> option error;
  MkdirAll_fault : string -> option error;
  WriteFile_fault : string -> option error;
  (** When a write fails: the number of bytes that reached the file, which
      [os.WriteFile] had by then created or truncated; [None] when the file
      could not be opened at all and is as it was. *)
  WriteFile_written : string -> option nat;
  (** [ctx.Err()] once [diffURL] has returned: of the shared context, and of
      the context [context.WithTimeout] derives from it for a duration. *)
  shared_ctx_Err : option error;
  timeout_ctx_Err : Z -> option error;
  (** The value the random source yields for this tick. *)
  rand_Int63 : Z
}.

(** Messages handed to [glog], kept structured. *)
Inductive message : Type :=
| MsgFetching (addr : string) (every j jitter : Z)
| MsgChecking (addr : string) (err : error)
| MsgNoChange (addr : string)
| MsgBailing
| MsgUpdatedFull (addr : string) (edits : Z) (diff : string)
| MsgUpdated (addr : string) (edits : Z)
| MsgStored (addr name : string) (bytes : Z)
| MsgLoaded (addr name : string) (bytes : Z)
| MsgFirstTime (addr : string).

(** Effects in the order the program performs them: operations on the
    outside world, the calls [diffURL] makes (recorded with what they
    returned), and output. *)
Inductive event : Type :=
| EvGet (addr : string)
| EvReadFile (name : string)
| EvMkdirAll (dir : string)
| EvWriteFile (name text : string)
| EvGetURLText (addr : string) (res : string * option error)
| EvReadState (addr : string) (res : string * option error)
| EvWriteState (addr text : string) (res : option error)
| EvReportDiffs (old new : string)
| EvInfo (m : message)
| EvWarning (m : message)
| EvV (level : Z) (m : message)
| EvPrintf (addr diff : string)
| EvMackNotify (addr : string) (edits : Z)
| EvMackSetClipboard (addr : string).

(** The mutable world: the files under the state directory and the trace of
    effects so far (most recent last). *)
Record World : Type := {
  files : gmap string string;
  trace : list event
}.

(** State-passing computations over [World]; [None] is a run-time panic
    (a slice out of range, [rand.Int63n] on a non-positive bound). *)
Definition M (A : Type) : Type := World -> option (A * World).

Definition ret {A} (a : A) : M A := fun w => Some (a, w).

Definition bind {A B} (m : M A) (k : A -> M B) : M B :=
  fun w => match m w with
           | Some (a, w') => k a w'
           | None => None
           end.

Definition panic {A} : M A := fun _ => None.

Notation "'let*' x := m 'in' k" := (bind m (fun x => k))
  (at level 10, x pattern, m at level 100, k at level 200).

Definition emit (e : event) : M unit :=
  fun w => Some (tt, {| files := files w; trace := trace w ++ [e] |}).

(** A call whose result is recorded in the trace when it returns. *)
Definition call {A} (ev : A -> event) (m : M A) : M A :=
  let* r := m in
  let* _ := emit (ev r) in
  ret r.

Definition get_files : M (gmap string string) := fun w => Some (files w, w).

Definition put_file (name text : string) : M unit :=
  fun w => Some (tt, {| files := <[name := text]> (files w); trace := trace w |}).

(** ** [github.com/sergi/go-diff/diffmatchpatch] *)

Inductive Operation : Type := DiffDelete | DiffInsert | DiffEqual.

Record Diff : Type := { Type_ : Operation; Text : string }.

(** Library functions whose results the program only passes on. *)
Class Libs : Type := {
  filepath_Join : string -> string -> string;
  filepath_Dir : string -> string;
  DiffMain : string -> string -> bool -> list Diff;
  DiffCleanupSemantic : list Diff -> list Diff
}.

(** ** The program (later revision) *)

(** The class [\w] of the regular expression: [0-9A-Za-z_]. *)
Definition isWord (c : ascii) : bool :=
  let n := nat_of_ascii c in
  ((48 <=? n) && (n <=? 57) || (65 <=? n) && (n <=? 90)
   || (97 <=? n) && (n <=? 122) || (n =? 95))%nat.

(** [specialRE.ReplaceAllLiteralString src repl] for
    [specialRE = regexp.MustCompile(`[^\w]+`)]: every maximal run of bytes
    outside [\w] becomes one [repl].  ([inRun] tells that the previous byte
    was already part of the current run.)  Bytes of a multi-byte rune are
    all outside [\w], so runs of runes and runs of bytes coincide. *)
Fixpoint replaceSpecial (inRun : bool) (src repl : string) : string :=
  match src with
  | EmptyString => EmptyString
  | String c r =>
      if isWord c then String c (replaceSpecial false r repl)
      else if inRun then replaceSpecial true r repl
      else repl +:+ replaceSpecial true r repl
  end.

Definition specialRE_ReplaceAllLiteralString (src repl : string) : string :=
  replaceSpecial false src repl.

(** [fmt.Fprintf(w, "\n(skipped %d bytes)\n", n)]: the text it writes. *)
Definition skipped_marker (n : Z) : string :=
  String nl "(skipped " +:+ itoa n +:+ " bytes)" +:+ String nl EmptyString.

(** The case [DiffEqual] of the [switch] in [reportDiffs]: the builder after
    the span [text] has been written. *)
Definition writeEqual (w text : string) : option string :=
  let firstNL := IndexByte text nl in
  let lastNL := LastIndexByte text nl in
  if lastNL =? firstNL then Some (w +:+ text)
  else
    match slice_to text firstNL, slice_from text lastNL with
    | Some head, Some tail =>
        Some (((w +:+ head) +:+ skipped_marker (lastNL - firstNL)) +:+ tail)
    | _, _ => None
    end.

(** The body of the loop of [reportDiffs] on the pair (builder, edits). *)
Definition reportDiffs_body (st : string * Z) (diff : Diff) : option (string * Z) :=
  let '(w, edits) := st in
  match Type_ diff with
  | DiffInsert =>
      Some (((w +:+ String esc "[32m") +:+ Text diff) +:+ String esc "[0m",
            edits + 1)
  | DiffDelete =>
      Some (((w +:+ String esc "[31m") +:+ Text diff) +:+ String esc "[0m",
            edits + 1)
  | DiffEqual =>
      match writeEqual w (Text diff) with
      | Some w' => Some (w', edits)
      | None => None
      end
  end.

Fixpoint reportDiffs_loop (diffs : list Diff) (st : string * Z) : option (string * Z) :=
  match diffs with
  | [] => Some st
  | diff :: rest =>
      match reportDiffs_body st diff with
      | Some st' => reportDiffs_loop rest st'
      | None => None
      end
  end.

Section Program.

Context {L : Libs}.
Variable fl : Flags.

(** [reportDiffs old new w]: the builder after the call and the count of
    edits. *)
Definition reportDiffs (old new w : string) : option (string * Z) :=
  let diffs := DiffCleanupSemantic (DiffMain old new true) in
  reportDiffs_loop diffs (w, 0).

(** The value of [name] at the end of [statePath]. *)
Definition stateName (addr : string) : string :=
  let digest := sha1.Sum (sha1.bytes_of_string addr) in
  let name := hex.EncodeToString digest +:+ "_"
                +:+ specialRE_ReplaceAllLiteralString addr "_" in
  if 127 <? len name then take 127 name else name.

Definition statePath (o : Oracle) (addr : string) : string * option error :=
  let dir := stateDir fl in
  if HasPrefixByte dir "~" then
    match UserHomeDir o with
    | (_, Some err) => (EmptyString, Some err)
    | (home, None) =>
        let dir := ReplaceFirstByte dir "~" home in
        (filepath_Join dir (stateName addr), None)
    end
  else (filepath_Join dir (stateName addr), None).

Definition os_MkdirAll (o : Oracle) (dir : string) : M (option error) :=
  let* _ := emit (EvMkdirAll dir) in
  ret (MkdirAll_fault o dir).

(** [os.WriteFile] opens the file with [O_WRONLY|O_CREATE|O_TRUNC], writes
    and closes.  When it fails the file is as it was if it could not be
    opened, and otherwise holds the bytes written so far, none of them when
    the failure came right after the truncation. *)
Definition os_WriteFile (o : Oracle) (name text : string) : M (option error) :=
  let* _ := emit (EvWriteFile name text) in
  match WriteFile_fault o name with
  | Some err =>
      match WriteFile_written o name with
      | Some k => let* _ := put_file name (take k text) in ret (Some err)
      | None => ret (Some err)
      end
  | None => let* _ := put_file name text in ret None
  end.

Definition os_ReadFile (o : Oracle) (name : string) : M (string * option error) :=
  let* _ := emit (EvReadFile name) in
  match ReadFile_fault o name with
  | Some err => ret (EmptyString, Some err)
  | None =>
      let* fs := get_files in
      match fs !! name with
      | Some p => ret (p, None)
      | None => ret (EmptyString, Some (ErrNotExist name))
      end
  end.

Definition writeState (o : Oracle) (addr text : string) : M (option error) :=
  match statePath o addr with
  | (_, Some err) => ret (Some err)
  | (name, None) =>
      let* _ := emit (EvV 2 (MsgStored addr name (len text))) in
      let* err := os_MkdirAll o (filepath_Dir name) in
      match err with
      | Some err => ret (Some err)
      | None => os_WriteFile o name text
      end
  end.

Definition readState (o : Oracle) (addr : string) : M (string * option error) :=
  match statePath o addr with
  | (_, Some err) => ret (EmptyString, Some err)
  | (name, None) =>
      let* (p, err) := os_ReadFile o name in
      match err with
      | Some err => ret (EmptyString, Some err)
      | None =>
          let* _ := emit (EvV 2 (MsgLoaded addr name (len p))) in
          ret (p, None)
      end
  end.

Definition getURLText (o : Oracle) (addr : string) : M (string * option error) :=
  match NewRequest_err o addr with
  | Some err => ret (EmptyString, Some err)
  | None =>
      let* _ := emit (EvGet addr) in
      match Do_err o addr with
      | Some err => ret (EmptyString, Some err)
      | None =>
          match ReadAll o addr with
          | (_, Some err) => ret (EmptyString, Some err)
          | (body, None) =>
              match html2text_FromString o body with
              | (_, Some err) => ret (EmptyString, Some err)
              | (text, None) => ret (text, None)
              end
          end
      end
  end.

Definition diffURL (o : Oracle) (addr : string) : M (string * Z * option error) :=
  let* (text, err) := call (EvGetURLText addr) (getURLText o addr) in
  match err with
  | Some err => ret (EmptyString, 0, Some err)
  | None =>
      let* (old, err) := call (EvReadState addr) (readState o addr) in
      let* err :=
        if os_IsNotExist err then
          let* _ := emit (EvInfo (MsgFirstTime addr)) in ret None
        else ret err in
      match err with
      | Some err => ret (EmptyString, 0, Some err)
      | None =>
          if String.eqb old text then ret (EmptyString, 0, None)
          else
            let* err := call (EvWriteState addr text) (writeState o addr text) in
            match err with
            | Some err => ret (EmptyString, 0, Some err)
            | None =>
                if String.eqb old EmptyString then ret ("(initial fetch)", 0, None)
                else
                  let* _ := emit (EvReportDiffs old text) in
                  match reportDiffs old text EmptyString with
                  | Some (sb, edits) => ret (sb, edits, None)
                  | None => panic
                  end
            end
      end
  end.

Definition diffURLWithTimeout (o : Oracle) (timeout : Z) (addr : string)
  : M (string * Z * option error) :=
  let ctx_Err :=
    if 0 <? timeout then timeout_ctx_Err o (requestTimeout fl) else shared_ctx_Err o in
  let* (diff, edits, err) := diffURL o addr in
  let err :=
    match err, ctx_Err with
    | None, Some cause => Some (ErrChecking addr cause)
    | _, _ => err
    end in
  ret (diff, edits, err).

Definition notify (addr diff : string) (edits : Z) : M unit :=
  let* _ :=
    if logFullDiff fl then emit (EvInfo (MsgUpdatedFull addr edits diff))
    else
      let* _ := emit (EvPrintf addr diff) in
      emit (EvInfo (MsgUpdated addr edits)) in
  let* _ :=
    if macNotify fl then emit (EvMackNotify addr edits) else ret tt in
  if macClipboard fl then emit (EvMackSetClipboard addr) else ret tt.

(** [rand.Int63n n]: panics unless [n] is positive, else the drawn value
    reduced below [n]. *)
Definition rand_Int63n (o : Oracle) (n : Z) : M Z :=
  if n <=? 0 then panic else ret (rand_Int63 o mod n).

(** What one pass through the [for] loop of [watch] leaves behind: the
    loop goes on with the timer [t] as it now stands ([Some d]: set to fire
    after [d]; [None]: spent), or [watch] has returned. *)
Inductive status : Type :=
| Looping (t : option Z)
| Returned.

(** The block [if every > 0 { ... }] at the head of the case [<-t.C]:
    the timer as it stands afterwards, reset to [every + j] or left
    spent. *)
Definition reset_timer (o : Oracle) (addr : string) (every jitter : Z)
  : M (option Z) :=
  if 0 <? every then
    let* j :=
      if 0 <? jitter then
        let* r := rand_Int63n o (Z.quot jitter Duration.Nanosecond) in
        ret (Duration.wrap (r * Duration.Nanosecond))
      else ret 0 in
    let* _ := emit (EvV 2 (MsgFetching addr every j jitter)) in
    ret (Some (Duration.add every j))
  else ret None.

(** The case [<-t.C] of the [select]: the timer has fired and is spent
    until it is reset. *)
Definition watch_tick (o : Oracle) (addr : string) (every jitter : Z) : M status :=
  let* t := reset_timer o addr every jitter in
  let* (diff, edits, err) := diffURLWithTimeout o (requestTimeout fl) addr in
  match err with
  | Some err =>
      let* _ := emit (EvWarning (MsgChecking addr err)) in
      ret (Looping t)
  | None =>
      let* _ :=
        if negb (String.eqb diff EmptyString) then notify addr diff edits
        else emit (EvV 1 (MsgNoChange addr)) in
      if every <=? 0 then
        let* _ := emit (EvInfo MsgBailing) in
        ret Returned
      else ret (Looping t)
  end.

(** The cases the [select] can take. *)
Inductive select_case : Type :=
| CtxDone
| TimerC (o : Oracle).

(** One pass through the loop: a case is taken only when its channel can
    deliver, [t.C] only while the timer is set. *)
Inductive watch_step (addr : string) (every jitter : Z)
  : status * World -> select_case -> status * World -> Prop :=
| step_done t w :
    watch_step addr every jitter (Looping t, w) CtxDone (Returned, w)
| step_tick d o w s w' :
    watch_tick o addr every jitter w = Some (s, w') ->
    watch_step addr every jitter (Looping (Some d), w) (TimerC o) (s, w').

(** [t := time.NewTimer(time.Nanosecond)]. *)
Definition watch_init (w : World) : status * World :=
  (Looping (Some Duration.Nanosecond), w).

(** The same pass as a function, [None] when the case cannot be taken or
    the body panics. *)
Definition watch_step_fn (addr : string) (every jitter : Z)
    (st : status * World) (c : select_case) : option (status * World) :=
  match st, c with
  | (Looping _, w), CtxDone => Some (Returned, w)
  | (Looping (Some _), w), TimerC o => watch_tick o addr every jitter w
  | _, _ => None
  end.

Fixpoint watch_run (addr : string) (every jitter : Z)
    (cs : list select_case) (st : status * World) : option (status * World) :=
  match cs with
  | [] => Some st
  | c :: rest =>
      match watch_step_fn addr every jitter st c with
      | Some st' => watch_run addr every jitter rest st'
      | None => None
      end
  end.

End Program.

(** ** The program (earlier revision, [watchurl.go])

    [reportDiffs] and [getURLText] are the same text in both revisions. *)

Module Legacy.
Section Program.

Context {L : Libs}.
Variable fl : Flags.

Definition stateName (addr : string) : string :=
  let digest := sha1.Sum (sha1.bytes_of_string addr) in
  hex.EncodeToString digest +:+ "_"
    +:+ specialRE_ReplaceAllLiteralString addr "_".

Definition statePath (o : Oracle) (addr : string) : string * option error :=
  let dir := stateDir fl in
  if HasPrefixByte dir "~" then
    match UserHomeDir o with
    | (_, Some err) => (EmptyString, Some err)
    | (home, None) =>
        let dir := ReplaceFirstByte dir "~" home in
        (filepath_Join dir (stateName addr), None)
    end
  else (filepath_Join dir (stateName addr), None).

Definition writeState (o : Oracle) (addr text : string) : M (option error) :=
  match statePath o addr with
  | (_, Some err) => ret (Some err)
  | (name, None) =>
      let* err := os_MkdirAll o (filepath_Dir name) in
      match err with
      | Some err => ret (Some err)
      | None => os_WriteFile o name text
      end
  end.

Definition readState (o : Oracle) (addr : string) : M (string * option error) :=
  match statePath o addr with
  | (_, Some err) => ret (EmptyString, Some err)
  | (name, None) =>
      let* (p, err) := os_ReadFile o name in
      match err with
      | Some err => ret (EmptyString, Some err)
      | None => ret (p, None)
      end
  end.

Definition diffURL (o : Oracle) (addr : string) : M (string * Z * option error) :=
  let* (text, err) := call (EvGetURLText addr) (getURLText o addr) in
  match err with
  | Some _ => ret (EmptyString, 0, None)
  | None =>
      let* (old, err) := call (EvReadState addr) (readState o addr) in
      let err := if os_IsNotExist err then None else err in
      match err with
      | Some _ => ret (EmptyString, 0, None)
      | None =>
          if String.eqb old text then ret (EmptyString, 0, None)
          else
            let* err := call (EvWriteState addr text) (writeState o addr text) in
            match err with
            | Some err => ret (EmptyString, 0, Some err)
            | None =>
                if String.eqb old EmptyString then ret ("(initial fetch)", 0, None)
                else
                  let* _ := emit (EvReportDiffs old text) in
                  match reportDiffs old text EmptyString with
                  | Some (sb, edits) => ret (sb, edits, None)
                  | None => panic
                  end
            end
      end
  end.

(** The case [<-t.C] of the [select] in the earlier [watch].  The block
    that resets the timer is the same text as in the later revision;
    [diffURL] is called directly, the notification is written in place, and
    the loop is left only when [every] is zero. *)
Definition watch_tick (o : Oracle) (addr : string) (every jitter : Z) : M status :=
  let* t := reset_timer o addr every jitter in
  let* (diff, edits, err) := diffURL o addr in
  match err with
  | Some err =>
      let* _ := emit (EvWarning (MsgChecking addr err)) in
      ret (Looping t)
  | None =>
      let* _ :=
        if negb (String.eqb diff EmptyString) then
          let* _ :=
            if logFullDiff fl then emit (EvInfo (MsgUpdatedFull addr edits diff))
            else
              let* _ := emit (EvPrintf addr diff) in
              emit (EvInfo (MsgUpdated addr edits)) in
          if macNotify fl then emit (EvMackNotify addr edits) else ret tt
        else emit (EvV 1 (MsgNoChange addr)) in
      if every =? 0 then
        let* _ := emit (EvInfo MsgBailing) in
        ret Returned
      else ret (Looping t)
  end.

End Program.
End Legacy.

(** ** Observations on traces *)

(** A call of [getURLText] returned an error. *)
Definition fetch_failed (tr : list event) : bool :=
  existsb (fun e => match e with
                    | EvGetURLText _ (_, Some _) => true
                    | _ => false
                    end) tr.

(** A call of [readState] returned an error other than not-found. *)
Definition read_failed (tr : list event) : bool :=
  existsb (fun e => match e with
                    | EvReadState _ (_, Some err) => negb (os_IsNotExist (Some err))
                    | _ => false
                    end) tr.

(** A call of [writeState] returned an error. *)
Definition write_failed (tr : list event) : bool :=
  existsb (fun e => match e with
                    | EvWriteState _ _ (Some _) => true
                    | _ => false
                    end) tr.

(** [readState] was called and reported that there is no file. *)
Definition read_not_found (tr : list event) : bool :=
  existsb (fun e => match e with
                    | EvReadState _ (_, Some err) => os_IsNotExist (Some err)
                    | _ => false
                    end) tr.

(** A file was written, or at least opened for writing. *)
Definition wrote_file (tr : list event) : bool :=
  existsb (fun e => match e with EvWriteFile _ _ => true | _ => false end) tr.

(** The renderer was called. *)
Definition called_reportDiffs (tr : list event) : bool :=
  existsb (fun e => match e with EvReportDiffs _ _ => true | _ => false end) tr.

(** Something was reported to the user: printed, logged as an update, shown
    as a desktop notification or put in the clipboard. *)
Definition reported (tr : list event) : bool :=
  existsb (fun e => match e with
                    | EvPrintf _ _ | EvInfo (MsgUpdated _ _)
                    | EvInfo (MsgUpdatedFull _ _ _)
                    | EvMackNotify _ _ | EvMackSetClipboard _ => true
                    | _ => false
                    end) tr.

(** [m] run in [w] returns [a]. *)
Definition returns {A} (m : M A) (w : World) (a : A) : Prop :=
  exists w', m w = Some (a, w').

(** The first-observation property as the specification words it, for any
    fetched text: no snapshot on disk, fetch and state I/O succeed; then the
    "(initial fetch)" report with no edits comes back and the text is the
    new snapshot. *)
Definition first_observation_property {L : Libs}
    (fl : Flags) (o : Oracle) (addr : string) (w : World) (text name : string) : Prop :=
  returns (getURLText o addr) w (text, None) ->
  statePath fl o addr = (name, None) ->
  files w !! name = None ->
  ReadFile_fault o name = None ->
  MkdirAll_fault o (filepath_Dir name) = None ->
  WriteFile_fault o name = None ->
  exists w',
    diffURL fl o addr w = Some (("(initial fetch)", 0, None), w')
    /\ files w' !! name = Some text.

(** The scheduling bound as the specification words it: the delay [d] is
    the interval plus a jitter below the bound (none when the bound is
    zero), hence within [every, every + jitter]. *)
Definition scheduling_bound (every jitter d : Z) : Prop :=
  exists j,
    d = every + j
    /\ (0 <= j < jitter \/ (jitter = 0 /\ j = 0))
    /\ every <= d <= every + jitter.

(** ** A small instance of the libraries

    Enough of [path/filepath] and of a text diff to run the program on
    examples: [Join] for a directory without a trailing separator, and a
    diff that keeps the common prefix and suffix and replaces the middle. *)

Module Sample.

Fixpoint common_prefix (a b : string) : string :=
  match a, b with
  | String x a', String y b' =>
      if Ascii.eqb x y then String x (common_prefix a' b') else EmptyString
  | _, _ => EmptyString
  end.

Definition rev_string (s : string) : string :=
  string_of_list_ascii (rev (list_ascii_of_string s)).

Definition span (op : Operation) (t : string) : list Diff :=
  if String.eqb t EmptyString then [] else [{| Type_ := op; Text := t |}].

Definition diff (old new : string) (_ : bool) : list Diff :=
  let p := common_prefix old new in
  let old' := drop (String.length p) old in
  let new' := drop (String.length p) new in
  let s := rev_string (common_prefix (rev_string old') (rev_string new')) in
  let del := take (String.length old' - String.length s) old' in
  let ins := take (String.length new' - String.length s) new' in
  span DiffEqual p ++ span DiffDelete del ++ span DiffInsert ins
    ++ span DiffEqual s.

Definition join (dir name : string) : string := dir +:+ "/" +:+ name.

Definition dir (name : string) : string :=
  take (Z.to_nat (LastIndexByte name "/"%char)) name.

Definition libs : Libs := {|
  filepath_Join := join;
  filepath_Dir := dir;
  DiffMain := diff;
  DiffCleanupSemantic := fun ds => ds
|}.

Definition flags : Flags := {|
  stateDir := "/mnt/data";
  requestTimeout := 30000000000;
  logFullDiff := false;
  macNotify := false;
  macClipboard := false
|}.

(** An environment in which the page reads [text] and nothing fails. *)
Definition serving (text : string) : Oracle := {|
  UserHomeDir := ("/home/watchurl", None);
  NewRequest_err := fun _ => None;
  Do_err := fun _ => None;
  ReadAll := fun _ => (text, None);
  html2text_FromString := fun body => (body, None);
  ReadFile_fault := fun _ => None;
  MkdirAll_fault := fun _ => None;
  WriteFile_fault := fun _ => None;
  WriteFile_written := fun _ => None;
  shared_ctx_Err := None;
  timeout_ctx_Err := fun _ => None;
  rand_Int63 := 0
|}.

(** An environment in which the request cannot be completed. *)
Definition unreachable : Oracle := {|
  UserHomeDir := ("/home/watchurl", None);
  NewRequest_err := fun _ => None;
  Do_err := fun _ => Some (ErrOther "dial tcp: connection refused");
  ReadAll := fun _ => (EmptyString, None);
  html2text_FromString := fun body => (body, None);
  ReadFile_fault := fun _ => None;
  MkdirAll_fault := fun _ => None;
  WriteFile_fault := fun _ => None;
  WriteFile_written := fun _ => None;
  shared_ctx_Err := None;
  timeout_ctx_Err := fun _ => None;
  rand_Int63 := 0
|}.

Definition drawing (r : Z) (o : Oracle) : Oracle := {|
  UserHomeDir := UserHomeDir o;
  NewRequest_err := NewRequest_err o;
  Do_err := Do_err o;
  ReadAll := ReadAll o;
  html2text_FromString := html2text_FromString o;
  ReadFile_fault := ReadFile_fault o;
  MkdirAll_fault := MkdirAll_fault o;
  WriteFile_fault := WriteFile_fault o;
  WriteFile_written := WriteFile_written o;
  shared_ctx_Err := shared_ctx_Err o;
  timeout_ctx_Err := timeout_ctx_Err o;
  rand_Int63 := r
|}.

(** [o], except that the deadline of the request has passed by the time
    [diffURL] returns. *)
Definition timing_out (o : Oracle) : Oracle := {|
  UserHomeDir := UserHomeDir o;
  NewRequest_err := NewRequest_err o;
  Do_err := Do_err o;
  ReadAll := ReadAll o;
  html2text_FromString := html2text_FromString o;
  ReadFile_fault := ReadFile_fault o;
  MkdirAll_fault := MkdirAll_fault o;
  WriteFile_fault := WriteFile_fault o;
  WriteFile_written := WriteFile_written o;
  shared_ctx_Err := shared_ctx_Err o;
  timeout_ctx_Err := fun _ => Some ErrDeadlineExceeded;
  rand_Int63 := rand_Int63 o
|}.

(** [o], except that every write fails on a full disk, after the file has
    been truncated and before any byte is written. *)
Definition disk_full (o : Oracle) : Oracle := {|
  UserHomeDir := UserHomeDir o;
  NewRequest_err := NewRequest_err o;
  Do_err := Do_err o;
  ReadAll := ReadAll o;
  html2text_FromString := html2text_FromString o;
  ReadFile_fault := ReadFile_fault o;
  MkdirAll_fault := MkdirAll_fault o;
  WriteFile_fault := fun _ => Some (ErrOther "write: no space left on device");
  WriteFile_written := fun _ => Some O;
  shared_ctx_Err := shared_ctx_Err o;
  timeout_ctx_Err := timeout_ctx_Err o;
  rand_Int63 := rand_Int63 o
|}.

Definition empty_world : World := {| files := ∅; trace := [] |}.

Definition url : string := "http://example.com".

(** The state file of [url] under the flags above. *)
Definition url_file : string :=
  join (stateDir flags) (stateName url).

(** A world whose only file is the snapshot [text] of [url]. *)
Definition world_with (text : string) : World :=
  {| files := {[ url_file := text ]}; trace := [] |}.

End Sample.

(** ** Start-up: [flagIsSet] and the head of [main] *)

(** The command line after [flag.Parse]: the values of the flags and the
    flags that have been set ([flag.FlagSet.actual]), name to value. *)
Record Startup : Type := {
  flags : Flags;
  actual : gmap string string
}.

(** [flagIsSet name]: [flag.Visit] calls the function on every flag that
    has been set; the order of the visit is immaterial to this loop. *)
Definition flagIsSet (s : Startup) (name : string) : bool :=
  fold_left (fun isSet f => if String.eqb (fst f) name then true else isSet)
    (map_to_list (actual s)) false.

(** [flag.Set("macos-notify", "0")]. *)
Definition Set_macos_notify_0 (s : Startup) : Startup :=
  {| flags := {| stateDir := stateDir (flags s);
                 requestTimeout := requestTimeout (flags s);
                 logFullDiff := logFullDiff (flags s);
                 macNotify := false;
                 macClipboard := macClipboard (flags s) |};
     actual := <["macos-notify" := "0"]> (actual s) |}.

(** [flag.Set("alsologtostderr", "1")]: a flag of [glog], none of the
    program's own. *)
Definition Set_alsologtostderr_1 (s : Startup) : Startup :=
  {| flags := flags s;
     actual := <["alsologtostderr" := "1"]> (actual s) |}.

(** The two adjustments [main] makes right after [flag.Parse], for the
    operating system [goos]. *)
Definition main_setup (goos : string) (s : Startup) : Startup :=
  let s := if negb (String.eqb goos "darwin") then Set_macos_notify_0 s else s in
  if negb (flagIsSet s "logtostderr" || flagIsSet s "alsologtostderr")
     && logFullDiff (flags s)
  then Set_alsologtostderr_1 s
  else s.

(** ** Further observations *)

(** A span that counts as an edit. *)
Definition is_edit (d : Diff) : bool :=
  match Type_ d with
  | DiffEqual => false
  | _ => true
  end.

(** Every byte of [s] satisfies [p]. *)
Fixpoint all_bytes (p : ascii -> bool) (s : string) : bool :=
  match s with
  | EmptyString => true
  | String c r => p c && all_bytes p r
  end.


(** A desktop notification was shown. *)
Definition notified_desktop (tr : list event) : bool :=
  existsb (fun e => match e with EvMackNotify _ _ => true | _ => false end) tr.

(** A warning was logged. *)
Definition warned (tr : list event) : bool :=
  existsb (fun e => match e with EvWarning _ => true | _ => false end) tr.

(** An HTTP request was sent. *)
Definition sent_request (tr : list event) : bool :=
  existsb (fun e => match e with EvGet _ => true | _ => false end) tr.

Definition is_TimerC (c : select_case) : bool :=
  match c with
  | TimerC _ => true
  | CtxDone => false
  end.
Example IndexByte_ex : IndexByte "ab" "b"%char = 1 /\ itoa 12 = "12" /\ itoa (-3) = "-3" /\ itoa 0 = "0".
Proof. repeat split; reflexivity. Qed.

Example sha1_abc :
  hex.EncodeToString (sha1.Sum (sha1.bytes_of_string "abc"))
  = "a9993e364706816aba3e25717850c26c9cd0d89d".
Proof. vm_compute. reflexivity. Qed.

Example sha1_empty :
  hex.EncodeToString (sha1.Sum (sha1.bytes_of_string ""))
  = "da39a3ee5e6b4b0d3255bfef95601890afd80709".
Proof. vm_compute. reflexivity. Qed.

Example sha1_two_blocks :
  hex.EncodeToString (sha1.Sum (sha1.bytes_of_string
    "abcdbcdecdefdefgefghfghighijhijkijkljklmklmnlmnomnopnopq"))
  = "84983e441c3bd26ebaae4aa1f95129e5e54670f1".
Proof. vm_compute. reflexivity. Qed.


(** ** Facts about byte strings *)

Local Arguments String.append !_ _ / : simpl nomatch.

Section StringFacts.

Lemma append_empty_r (s : string) : s +:+ EmptyString = s.
Proof. induction s as [|a s IH]; simpl; [reflexivity | now rewrite IH]. Qed.

Lemma append_assoc (s t u : string) : (s +:+ t) +:+ u = s +:+ (t +:+ u).
Proof. induction s as [|a s IH]; simpl; [reflexivity | now rewrite IH]. Qed.

Lemma len_append (s t : string) : len (s +:+ t) = len s + len t.
Proof.
  unfold len. induction s as [|a s IH]; simpl String.length.
  - reflexivity.
  - rewrite !Nat2Z.inj_succ. simpl in IH. lia.
Qed.

Lemma len_nonneg (s : string) : 0 <= len s.
Proof. unfold len. lia. Qed.

Lemma len_String (a : ascii) (s : string) : len (String a s) = 1 + len s.
Proof. unfold len. simpl String.length. lia. Qed.

Lemma take_append (s t : string) : take (String.length s) (s +:+ t) = s.
Proof. induction s as [|a s IH]; simpl; [now destruct t | now rewrite IH]. Qed.

Lemma drop_append (s t : string) : drop (String.length s) (s +:+ t) = t.
Proof. induction s as [|a s IH]; simpl; [reflexivity | exact IH]. Qed.

Lemma take_length (n : nat) (s : string) :
  (n <= String.length s)%nat -> String.length (take n s) = n.
Proof.
  revert s. induction n as [|n IH]; intros [|a s] Hn; simpl in *; try lia.
  rewrite IH; lia.
Qed.

Lemma count_append (c : ascii) (s t : string) :
  count c (s +:+ t) = (count c s + count c t)%nat.
Proof. induction s as [|a s IH]; simpl; [reflexivity | rewrite IH; lia]. Qed.

(** The first occurrence splits the string. *)
Lemma split_first (c : ascii) (s : string) :
  (1 <= count c s)%nat ->
  exists pre r, s = pre +:+ String c r /\ count c pre = O.
Proof.
  induction s as [|a s IH]; simpl; intros Hc; [lia |].
  destruct (Ascii.eqb_spec a c) as [-> | Hne].
  - exists EmptyString, s. split; reflexivity.
  - destruct IH as (pre & r & -> & Hpre); [lia |].
    exists (String a pre), r. split; [reflexivity |].
    simpl. destruct (Ascii.eqb_spec a c); [contradiction | exact Hpre].
Qed.

(** The last occurrence splits the string. *)
Lemma split_last (c : ascii) (s : string) :
  (1 <= count c s)%nat ->
  exists r post, s = r +:+ String c post /\ count c post = O.
Proof.
  induction s as [|a s IH]; simpl; intros Hc; [lia |].
  destruct (Nat.eq_dec (count c s) O) as [Hz | Hnz].
  - destruct (Ascii.eqb_spec a c) as [-> | Hne]; [| lia].
    exists EmptyString, s. split; [reflexivity | exact Hz].
  - destruct IH as (r & post & -> & Hpost); [lia |].
    exists (String a r), post. split; [reflexivity | exact Hpost].
Qed.

Lemma IndexByte_absent (c : ascii) (s : string) :
  count c s = O -> IndexByte s c = -1.
Proof.
  induction s as [|a s IH]; simpl; intros Hc; [reflexivity |].
  destruct (Ascii.eqb a c); [lia |].
  rewrite IH by lia. reflexivity.
Qed.

Lemma LastIndexByte_absent (c : ascii) (s : string) :
  count c s = O -> LastIndexByte s c = -1.
Proof.
  induction s as [|a s IH]; simpl; intros Hc; [reflexivity |].
  destruct (Ascii.eqb a c); [lia |].
  rewrite IH by lia. reflexivity.
Qed.

Lemma IndexByte_first (c : ascii) (pre r : string) :
  count c pre = O -> IndexByte (pre +:+ String c r) c = len pre.
Proof.
  induction pre as [|a pre IH]; simpl; intros Hc.
  - now rewrite Ascii.eqb_refl.
  - destruct (Ascii.eqb a c); [lia |].
    rewrite IH by lia. rewrite len_String.
    pose proof (len_nonneg pre).
    destruct (Z.ltb_spec (len pre) 0); lia.
Qed.

Lemma LastIndexByte_last (c : ascii) (r post : string) :
  count c post = O -> LastIndexByte (r +:+ String c post) c = len r.
Proof.
  intros Hc. induction r as [|a r IH]; simpl.
  - rewrite (LastIndexByte_absent _ _ Hc). simpl.
    now rewrite Ascii.eqb_refl.
  - rewrite IH. rewrite len_String.
    pose proof (len_nonneg r).
    destruct (Z.leb_spec 0 (len r)); lia.
Qed.

Lemma slice_to_append (s t : string) : slice_to (s +:+ t) (len s) = Some s.
Proof.
  unfold slice_to. rewrite len_append.
  pose proof (len_nonneg s). pose proof (len_nonneg t).
  destruct (Z.leb_spec 0 (len s)); [| lia].
  destruct (Z.leb_spec (len s) (len s + len t)); [| lia].
  simpl. unfold len. rewrite Nat2Z.id. now rewrite take_append.
Qed.

Lemma slice_from_append (s t : string) : slice_from (s +:+ t) (len s) = Some t.
Proof.
  unfold slice_from. rewrite len_append.
  pose proof (len_nonneg s). pose proof (len_nonneg t).
  destruct (Z.leb_spec 0 (len s)); [| lia].
  destruct (Z.leb_spec (len s) (len s + len t)); [| lia].
  simpl. unfold len. rewrite Nat2Z.id. now rewrite drop_append.
Qed.

End StringFacts.

(** ** The diff renderer *)

Section Renderer.

Lemma writeEqual_verbatim (w t : string) :
  (count nl t <= 1)%nat -> writeEqual w t = Some (w +:+ t).
Proof.
  intros Hc. unfold writeEqual.
  destruct (Nat.eq_dec (count nl t) O) as [Hz | Hnz].
  - rewrite (IndexByte_absent _ _ Hz), (LastIndexByte_absent _ _ Hz).
    reflexivity.
  - destruct (split_first nl t) as (pre & r & -> & Hpre); [lia |].
    rewrite count_append in Hc. simpl in Hc.
    rewrite ?Ascii.eqb_refl in Hc.
    rewrite (IndexByte_first _ _ _ Hpre).
    rewrite LastIndexByte_last by lia.
    now rewrite Z.eqb_refl.
Qed.

Lemma writeEqual_elided (w t : string) :
  (2 <= count nl t)%nat ->
  exists pre mid post,
    t = pre +:+ String nl (mid +:+ String nl post)
    /\ count nl pre = O /\ count nl post = O
    /\ IndexByte t nl = len pre
    /\ LastIndexByte t nl = len pre + 1 + len mid
    /\ writeEqual w t
       = Some (((w +:+ pre) +:+ skipped_marker (len mid + 1))
               +:+ String nl post).
Proof.
  intros Hc.
  destruct (split_first nl t) as (pre & r & -> & Hpre); [lia |].
  rewrite count_append in Hc. simpl in Hc. rewrite ?Ascii.eqb_refl in Hc.
  destruct (split_last nl r) as (mid & post & -> & Hpost); [lia |].
  exists pre, mid, post.
  assert (Hfirst : IndexByte (pre +:+ String nl (mid +:+ String nl post)) nl
                   = len pre) by now apply IndexByte_first.
  assert (Hlast : LastIndexByte (pre +:+ String nl (mid +:+ String nl post)) nl
                  = len pre + 1 + len mid).
  { replace (pre +:+ String nl (mid +:+ String nl post))
      with ((pre +:+ String nl mid) +:+ String nl post)
      by now rewrite append_assoc.
    rewrite LastIndexByte_last by exact Hpost.
    rewrite len_append, len_String. lia. }
  repeat split; try assumption.
  unfold writeEqual. rewrite Hfirst, Hlast.
  pose proof (len_nonneg mid).
  destruct (Z.eqb_spec (len pre + 1 + len mid) (len pre)); [lia |].
  rewrite slice_to_append.
  replace (len pre + 1 + len mid) with (len (pre +:+ String nl mid))
    by (rewrite len_append, len_String; lia).
  replace (pre +:+ String nl (mid +:+ String nl post))
    with ((pre +:+ String nl mid) +:+ String nl post)
    by now rewrite append_assoc.
  rewrite slice_from_append.
  rewrite len_append, len_String.
  replace (len pre + (1 + len mid) - len pre) with (len mid + 1) by lia.
  reflexivity.
Qed.

(** Writing an unchanged span never indexes out of range. *)
Lemma writeEqual_total (w t : string) : exists w', writeEqual w t = Some w'.
Proof.
  destruct (le_lt_dec (count nl t) 1) as [Hle | Hgt].
  - eexists. now apply writeEqual_verbatim.
  - destruct (writeEqual_elided w t) as (pre & mid & post & _ & _ & _ & _ & _ & ->);
      [lia | eauto].
Qed.

Lemma reportDiffs_body_total (st : string * Z) (d : Diff) :
  exists st', reportDiffs_body st d = Some st'.
Proof.
  destruct st as [w e]. unfold reportDiffs_body.
  destruct (Type_ d); eauto.
  destruct (writeEqual_total w (Text d)) as [w' ->]. eauto.
Qed.

Lemma reportDiffs_loop_total (ds : list Diff) (st : string * Z) :
  exists st', reportDiffs_loop ds st = Some st'.
Proof.
  revert st. induction ds as [|d ds IH]; intros st; simpl; [eauto |].
  destruct (reportDiffs_body_total st d) as [st' ->]. apply IH.
Qed.

Lemma reportDiffs_loop_app (ds1 ds2 : list Diff) (st : string * Z) :
  reportDiffs_loop (ds1 ++ ds2) st
  = match reportDiffs_loop ds1 st with
    | Some st' => reportDiffs_loop ds2 st'
    | None => None
    end.
Proof.
  revert st. induction ds1 as [|d ds1 IH]; intros st; simpl; [reflexivity |].
  destruct (reportDiffs_body st d); [apply IH | reflexivity].
Qed.

End Renderer.

Section RendererOnDiffs.

Context {L : Libs}.

(** The renderer never panics. *)
Lemma reportDiffs_total (old new w : string) :
  exists sb edits, reportDiffs old new w = Some (sb, edits).
Proof.
  unfold reportDiffs.
  destruct (reportDiffs_loop_total (DiffCleanupSemantic (DiffMain old new true)) (w, 0))
    as [[sb edits] ->].
  eauto.
Qed.

(** Every unchanged span, wherever it stands in the list, in terms of
    [skipped_marker]. *)
Lemma reportDiffs_equal_span_marker (old new w0 t : string) (ds1 ds2 : list Diff) :
  DiffCleanupSemantic (DiffMain old new true)
    = ds1 ++ {| Type_ := DiffEqual; Text := t |} :: ds2 ->
  exists w1 e1 out,
    reportDiffs_loop ds1 (w0, 0) = Some (w1, e1)
    /\ reportDiffs_loop (ds1 ++ [{| Type_ := DiffEqual; Text := t |}]) (w0, 0)
       = Some (w1 +:+ out, e1)
    /\ reportDiffs old new w0 = reportDiffs_loop ds2 (w1 +:+ out, e1)
    /\ ((count nl t <= 1)%nat -> out = t)
    /\ ((2 <= count nl t)%nat ->
        exists pre mid post,
          t = pre +:+ String nl (mid +:+ String nl post)
          /\ count nl pre = O /\ count nl post = O
          /\ LastIndexByte t nl - IndexByte t nl = len mid + 1
          /\ out = pre +:+ skipped_marker (len mid + 1) +:+ String nl post).
Proof.
  intros Hds.
  destruct (reportDiffs_loop_total ds1 (w0, 0)) as [[w1 e1] H1].
  destruct (writeEqual_total w1 t) as [w2 H2].
  assert (Hout : exists out, w2 = w1 +:+ out
            /\ ((count nl t <= 1)%nat -> out = t)
            /\ ((2 <= count nl t)%nat ->
                exists pre mid post,
                  t = pre +:+ String nl (mid +:+ String nl post)
                  /\ count nl pre = O /\ count nl post = O
                  /\ LastIndexByte t nl - IndexByte t nl = len mid + 1
                  /\ out = pre +:+ skipped_marker (len mid + 1)
                             +:+ String nl post)).
  { destruct (le_lt_dec (count nl t) 1) as [Hle | Hgt].
    - exists t. rewrite (writeEqual_verbatim w1 t Hle) in H2.
      injection H2 as <-.
      split; [reflexivity |]. split; [reflexivity | lia].
    - destruct (writeEqual_elided w1 t) as (pre & mid & post & Ht & Hp & Hq & Hf & Hl & Hw);
        [lia |].
      rewrite Hw in H2. injection H2 as <-.
      exists (pre +:+ skipped_marker (len mid + 1) +:+ String nl post).
      split; [now rewrite !append_assoc |].
      split; [lia |].
      intros _. exists pre, mid, post.
      repeat split; try assumption. lia. }
  destruct Hout as (out & -> & Hle & Hge).
  exists w1, e1, out.
  split; [exact H1 |].
  assert (Hstep : reportDiffs_loop (ds1 ++ [{| Type_ := DiffEqual; Text := t |}]) (w0, 0)
                  = Some (w1 +:+ out, e1)).
  { rewrite reportDiffs_loop_app, H1. simpl. now rewrite H2. }
  split; [exact Hstep |].
  split; [| split; assumption].
  unfold reportDiffs. rewrite Hds.
  change (ds1 ++ {| Type_ := DiffEqual; Text := t |} :: ds2)
    with (ds1 ++ [{| Type_ := DiffEqual; Text := t |}] ++ ds2).
  rewrite app_assoc, reportDiffs_loop_app, Hstep. reflexivity.
Qed.


(** C1. For every unchanged span [t] of the cleaned-up diff, wherever it
    stands in the list: the spans before it are written first, then the
    span appends [out] to the builder and leaves the count of edits alone,
    then the remaining spans follow.  With at most one line break in [t],
    [out] is [t] itself; with two or more, [t] splits at its first and
    last line break into [pre], [mid], [post] and [out] is [pre], then a
    line break, the words "(skipped N bytes)" with [N] the distance between
    the two line breaks in decimal, and a line break, then the last line
    break followed by [post]. *)
Theorem reportDiffs_equal_span (old new w0 t : string) (ds1 ds2 : list Diff) :
  DiffCleanupSemantic (DiffMain old new true)
    = ds1 ++ {| Type_ := DiffEqual; Text := t |} :: ds2 ->
  exists w1 e1 out,
    reportDiffs_loop ds1 (w0, 0) = Some (w1, e1)
    /\ reportDiffs_loop (ds1 ++ [{| Type_ := DiffEqual; Text := t |}]) (w0, 0)
       = Some (w1 +:+ out, e1)
    /\ reportDiffs old new w0 = reportDiffs_loop ds2 (w1 +:+ out, e1)
    /\ ((count nl t <= 1)%nat -> out = t)
    /\ ((2 <= count nl t)%nat ->
        exists pre mid post,
          t = pre +:+ String nl (mid +:+ String nl post)
          /\ count nl pre = O /\ count nl post = O
          /\ LastIndexByte t nl - IndexByte t nl = len mid + 1
          /\ out = pre
                    +:+ (String nl "(skipped "
                           +:+ NilZero.string_of_int (Z.to_int (len mid + 1))
                           +:+ " bytes)" +:+ String nl EmptyString)
                    +:+ String nl post).
Proof. exact (reportDiffs_equal_span_marker old new w0 t ds1 ds2). Qed.

End RendererOnDiffs.

Lemma reportDiffs_equal_span_witness :
  let L := Sample.libs in
  let t := String "a" (String nl (String "b" (String nl (String "c" (String nl EmptyString))))) in
  let old := t +:+ "X" in
  let new := t +:+ "Y" in
  let ds2 := [{| Type_ := DiffDelete; Text := "X" |};
              {| Type_ := DiffInsert; Text := "Y" |}] in
  DiffCleanupSemantic (DiffMain old new true)
    = [] ++ {| Type_ := DiffEqual; Text := t |} :: ds2
  /\ exists w1 e1 out,
      reportDiffs_loop [] (EmptyString, 0) = Some (w1, e1)
      /\ reportDiffs_loop ([] ++ [{| Type_ := DiffEqual; Text := t |}]) (EmptyString, 0)
         = Some (w1 +:+ out, e1)
      /\ reportDiffs old new EmptyString = reportDiffs_loop ds2 (w1 +:+ out, e1)
      /\ ((count nl t <= 1)%nat -> out = t)
      /\ ((2 <= count nl t)%nat ->
          exists pre mid post,
            t = pre +:+ String nl (mid +:+ String nl post)
            /\ count nl pre = O /\ count nl post = O
            /\ LastIndexByte t nl - IndexByte t nl = len mid + 1
            /\ out = pre
                    +:+ (String nl "(skipped "
                           +:+ NilZero.string_of_int (Z.to_int (len mid + 1))
                           +:+ " bytes)" +:+ String nl EmptyString)
                    +:+ String nl post)
      /\ out = "a" +:+ String nl "(skipped 4 bytes)" +:+ String nl (String nl EmptyString).
Proof.
  intros L t old new ds2.
  split; [reflexivity |].
  destruct (reportDiffs_equal_span (L := L) old new EmptyString t [] ds2 eq_refl)
    as (w1 & e1 & out & H1 & H2 & H3 & Hle & Hge).
  exists w1, e1, out.
  repeat (split; [assumption |]).
  simpl in H1. injection H1 as <- <-.
  vm_compute in H2. injection H2 as <-.
  reflexivity.
Defined.

Example reportDiffs_elides :
  reportDiffs (L := Sample.libs)
    (String "a" (String nl (String "b" (String nl (String "c" (String nl "X"))))))
    (String "a" (String nl (String "b" (String nl (String "c" (String nl "Y"))))))
    EmptyString
  = Some ("a" +:+ String nl "(skipped 4 bytes)" +:+ String nl (String nl EmptyString)
            +:+ String esc "[31mX" +:+ String esc "[0m"
            +:+ String esc "[32mY" +:+ String esc "[0m", 2).
Proof. vm_compute. reflexivity. Qed.

(** ** The fetch/compare/persist cycle *)

(** Symbolic execution of the state-passing definitions: unfold them, then
    split on an innermost scrutinee, in the hypotheses and in the goal,
    until no [match] is left. *)
Ltac unfold_program :=
  cbv beta iota delta
    [returns diffURL Legacy.diffURL call getURLText readState writeState
     Legacy.readState Legacy.writeState statePath Legacy.statePath
     os_ReadFile os_WriteFile os_MkdirAll bind ret emit panic get_files
     put_file] in *.

Ltac split_program :=
  repeat (simpl in *; simplify_eq;
          match goal with
          | H : context [match ?x with _ => _ end] |- _ =>
              lazymatch x with
              | context [match _ with _ => _ end] => fail
              | _ => destruct x eqn:?
              end
          | |- context [match ?x with _ => _ end] =>
              lazymatch x with
              | context [match _ with _ => _ end] => fail
              | _ => destruct x eqn:?
              end
          end);
  simpl in *; simplify_eq.

Ltac exec := unfold_program; split_program.

Ltac trace_ext :=
  simpl; rewrite <- ?app_assoc; reflexivity.

Section Cycle.

Context {L : Libs}.
Variable fl : Flags.

(** [diffURL] never panics. *)
Lemma diffURL_total (o : Oracle) (addr : string) (w : World) :
  exists r w', diffURL fl o addr w = Some (r, w').
Proof.
  destruct (diffURL fl o addr w) as [[r w']|] eqn:H; [eauto |].
  exec.
  all: match goal with
       | H : reportDiffs ?a ?b ?c = None |- _ =>
           destruct (reportDiffs_total a b c) as (? & ? & ?); congruence
       end.
Qed.

(** C5. [diffURL] always returns.  Take what the environment makes the
    three calls return: [getURLText] gives [(text, ferr)], [readState]
    gives [(old, rerr)], [writeState] of [text] gives [werr].  The run meets
    a failed fetch exactly when [ferr] is an error; a failed read exactly
    when the fetch succeeded and [rerr] is an error that is not not-found;
    a failed write exactly when fetch and read let the run reach the write,
    the texts differ and [werr] is an error.  The error [diffURL] returns
    is non-nil exactly when the run met one of the three, and it is then
    that very error.  After a not-found read the run goes on as with an
    empty old snapshot: an empty fetched text ends it with no change, any
    other text is written and, if the write succeeds, reported as the
    initial fetch.  Whenever the error is non-nil the diff is empty and
    the count of edits is zero. *)
Theorem diffURL_error_iff (o : Oracle) (addr : string) (w : World) :
  exists text ferr old rerr werr d n err w' tr,
    returns (getURLText o addr) w (text, ferr)
    /\ returns (readState fl o addr) w (old, rerr)
    /\ returns (writeState fl o addr text) w werr
    /\ diffURL fl o addr w = Some ((d, n, err), w')
    /\ trace w' = trace w ++ tr
    /\ (fetch_failed tr = true <-> ferr <> None)
    /\ (read_failed tr = true
        <-> ferr = None /\ rerr <> None /\ os_IsNotExist rerr = false)
    /\ (read_not_found tr = true <-> ferr = None /\ os_IsNotExist rerr = true)
    /\ (write_failed tr = true
        <-> ferr = None /\ (rerr = None \/ os_IsNotExist rerr = true)
            /\ old <> text /\ werr <> None)
    /\ (err <> None
        <-> fetch_failed tr || read_failed tr || write_failed tr = true)
    /\ (fetch_failed tr = true -> err = ferr)
    /\ (read_failed tr = true -> err = rerr)
    /\ (write_failed tr = true -> err = werr)
    /\ (read_not_found tr = true ->
        In (EvGetURLText addr (text, None)) tr
        /\ ((text = EmptyString /\ (d, n, err) = (EmptyString, 0, None)
             /\ files w' = files w)
            \/ (text <> EmptyString
                /\ In (EvWriteState addr text werr) tr
                /\ (d, n, err)
                   = match werr with
                     | None => ("(initial fetch)", 0, None)
                     | Some e => (EmptyString, 0, Some e)
                     end)))
    /\ (err <> None -> d = EmptyString /\ n = 0).
Proof.
  destruct (diffURL_total o addr w) as ([[d n] err] & w' & H).
  destruct (getURLText o addr w) as [[[text ferr] w1] |] eqn:Hf.
  2: { exfalso. clear H. exec. }
  destruct (readState fl o addr w) as [[[old rerr] w2] |] eqn:Hr.
  2: { exfalso. clear H Hf. exec. }
  destruct (writeState fl o addr text w) as [[werr w3] |] eqn:Hw.
  2: { exfalso. clear H Hf Hr. exec. }
  exists text, ferr, old, rerr, werr, d, n, err, w'.
  unfold returns. rewrite Hf, Hr, Hw.
  exec.
  all: eexists; split; [eexists; reflexivity |]; split; [eexists; reflexivity |];
    split; [eexists; reflexivity |]; split; [reflexivity |];
    split; [trace_ext |]; simpl.
  all: repeat match goal with
              | H : (_ =? _)%string = false |- _ => apply String.eqb_neq in H
              | H : (_ =? _)%string = true |- _ => apply String.eqb_eq in H; subst
              end.
  all: repeat split; intros; simpl in *; try congruence; try discriminate.
  all: try solve [intuition (try congruence; try discriminate; eauto 10)].
Qed.

(** C2 (amended). With no snapshot on disk and fetch and state I/O
    succeeding: a non-empty fetched text comes back as the
    "(initial fetch)" report with no edits, without a call of the
    renderer, and is the snapshot afterwards; an empty fetched text comes
    back as no change and nothing is written. *)
Theorem diffURL_first_observation (o : Oracle) (addr : string) (w : World)
    (text name : string) :
  returns (getURLText o addr) w (text, None) ->
  statePath fl o addr = (name, None) ->
  files w !! name = None ->
  ReadFile_fault o name = None ->
  MkdirAll_fault o (filepath_Dir name) = None ->
  WriteFile_fault o name = None ->
  exists w' tr,
    trace w' = trace w ++ tr
    /\ (text <> EmptyString ->
        diffURL fl o addr w = Some (("(initial fetch)", 0, None), w')
        /\ files w' = <[name := text]> (files w)
        /\ called_reportDiffs tr = false)
    /\ (text = EmptyString ->
        diffURL fl o addr w = Some ((EmptyString, 0, None), w')
        /\ files w' = files w
        /\ wrote_file tr = false).
Proof.
  intros [w1 Hfetch] Hpath Hnone Hrf Hmk Hwf.
  destruct (diffURL_total o addr w) as (r & w' & H).
  exists w'. rewrite H.
  exec.
  all: eexists; (split; [trace_ext |]).
  all: split; intros ?; try congruence; repeat split; reflexivity.
Qed.

(** The trace plays no part in what [diffURL] does: started with the same
    files and another trace, it returns the same and appends the same
    events. *)
Lemma diffURL_trace_frame (o : Oracle) (addr : string) (w : World)
    (r : string * Z * option error) (w' : World) (t0 : list event) :
  diffURL fl o addr w = Some (r, w') ->
  exists tr,
    trace w' = trace w ++ tr
    /\ diffURL fl o addr {| files := files w; trace := t0 |}
       = Some (r, {| files := files w'; trace := t0 ++ tr |}).
Proof.
  intros H.
  exec.
  all: eexists; split; [trace_ext |]; simpl; rewrite <- ?app_assoc; reflexivity.
Qed.

(** C9. A snapshot file that exists and is empty, a non-empty fetched text,
    fetch and state I/O succeeding: the text is written and the
    "(initial fetch)" report with no edits comes back, without a call of
    the renderer.  Started without the file, [diffURL] returns the same
    and leaves the same files. *)
Theorem diffURL_empty_snapshot (o : Oracle) (addr : string) (w : World)
    (text name : string) :
  returns (getURLText o addr) w (text, None) ->
  text <> EmptyString ->
  statePath fl o addr = (name, None) ->
  files w !! name = Some EmptyString ->
  ReadFile_fault o name = None ->
  MkdirAll_fault o (filepath_Dir name) = None ->
  WriteFile_fault o name = None ->
  exists w' tr,
    diffURL fl o addr w = Some (("(initial fetch)", 0, None), w')
    /\ trace w' = trace w ++ tr
    /\ files w' = <[name := text]> (files w)
    /\ called_reportDiffs tr = false
    /\ exists w0',
        diffURL fl o addr {| files := delete name (files w); trace := trace w |}
        = Some (("(initial fetch)", 0, None), w0')
        /\ files w0' = files w'.
Proof.
  intros [w1 Hfetch] Hne Hpath Hsome Hrf Hmk Hwf.
  set (fs0 := delete name (files w)).
  assert (H0 : fs0 !! name = None) by apply lookup_delete_eq.
  assert (Hins : <[name := text]> fs0 = <[name := text]> (files w))
    by apply insert_delete_eq.
  clearbody fs0.
  exec.
  all: try congruence.
  all: do 2 eexists; split; [reflexivity |]; split; [trace_ext |].
  all: split; [reflexivity |]; split; [reflexivity |].
  all: eexists; split; [reflexivity | simpl; assumption].
Qed.

(** ** The loop *)

Lemma existsb_app_false {A} (f : A -> bool) (l1 l2 : list A) :
  existsb f l1 = false -> existsb f l2 = false -> existsb f (l1 ++ l2) = false.
Proof. intros H1 H2. rewrite existsb_app, H1, H2. reflexivity. Qed.

Lemma wrap_in_range (x : Z) :
  Duration.min_int64 <= x <= Duration.max_int64 -> Duration.wrap x = x.
Proof.
  unfold Duration.wrap, Duration.min_int64, Duration.max_int64. intros Hx.
  rewrite Z.mod_small; lia.
Qed.

(** The block that resets the timer: it touches no file, logs at most one
    line, and leaves the timer spent in one-shot mode and set to
    [every + j] otherwise, with [j] drawn below a positive [jitter] and
    zero without one. *)
Lemma reset_timer_spec (o : Oracle) (addr : string) (every jitter : Z) :
  exists t tr0,
    (forall w, reset_timer o addr every jitter w
               = Some (t, {| files := files w; trace := trace w ++ tr0 |}))
    /\ reported tr0 = false /\ wrote_file tr0 = false
    /\ called_reportDiffs tr0 = false
    /\ (every <= 0 -> t = None)
    /\ (0 < every ->
        exists j, t = Some (Duration.add every j)
                  /\ (0 < jitter <= Duration.max_int64 -> 0 <= j < jitter)
                  /\ (jitter <= 0 -> j = 0)).
Proof.
  unfold reset_timer, rand_Int63n, bind, ret, emit, panic.
  rewrite Z.quot_1_r.
  destruct (Z.ltb_spec 0 every) as [He | He].
  - destruct (Z.ltb_spec 0 jitter) as [Hj | Hj].
    + destruct (Z.leb_spec jitter 0) as [Hj' | Hj']; [lia |].
      do 2 eexists. split; [intros w; reflexivity |].
      split; [reflexivity |]. split; [reflexivity |].
      split; [reflexivity |]. split; [lia |].
      intros _. eexists. split; [reflexivity |].
      pose proof (Z.mod_pos_bound (rand_Int63 o) jitter Hj) as Hb.
      unfold Duration.Nanosecond. rewrite Z.mul_1_r.
      split; [| lia].
      intros Hmax. rewrite wrap_in_range; [lia |].
      unfold Duration.min_int64. lia.
    + do 2 eexists. split; [intros w; reflexivity |].
      split; [reflexivity |]. split; [reflexivity |].
      split; [reflexivity |]. split; [lia |].
      intros _. exists 0. split; [reflexivity |]. split; lia.
  - exists None, []. split.
    + intros [fs tr]. simpl. now rewrite app_nil_r.
    + split; [reflexivity |]. split; [reflexivity |].
      split; [reflexivity |]. split; [reflexivity | lia].
Qed.

(** What the rest of the tick does once the timer block and [diffURL]
    have run: it writes no file and calls no renderer; with an error
    (that of [diffURL], or the context error put in its place) it logs a
    warning and loops; without one it notifies of a non-empty diff and
    loops or, in one-shot mode, returns. *)
Lemma watch_tick_run (o : Oracle) (addr : string) (every jitter : Z) (w : World)
    (t : option Z) (tr0 : list event) (d : string) (n : Z)
    (err : option error) (w1 : World) :
  (forall w, reset_timer o addr every jitter w
             = Some (t, {| files := files w; trace := trace w ++ tr0 |})) ->
  diffURL fl o addr {| files := files w; trace := trace w ++ tr0 |}
    = Some ((d, n, err), w1) ->
  exists s tr2,
    watch_tick fl o addr every jitter w
      = Some (s, {| files := files w1; trace := trace w1 ++ tr2 |})
    /\ wrote_file tr2 = false
    /\ called_reportDiffs tr2 = false
    /\ (d = EmptyString -> reported tr2 = false)
    /\ match
         match err,
               (if 0 <? requestTimeout fl
                then timeout_ctx_Err o (requestTimeout fl)
                else shared_ctx_Err o) with
         | None, Some cause => Some (ErrChecking addr cause)
         | _, _ => err
         end
       with
       | Some e => s = Looping t /\ tr2 = [EvWarning (MsgChecking addr e)]
       | None =>
           s = (if every <=? 0 then Returned else Looping t)
           /\ (d <> EmptyString -> reported tr2 = true)
       end.
Proof.
  intros Hreset Hd.
  unfold watch_tick, bind. rewrite Hreset.
  unfold diffURLWithTimeout, bind. rewrite Hd.
  unfold notify, bind, ret, emit.
  destruct err as [e |];
    destruct (if 0 <? requestTimeout fl
              then timeout_ctx_Err o (requestTimeout fl)
              else shared_ctx_Err o) as [c |];
    simpl.
  1-3: do 2 eexists; split; [reflexivity |]; repeat split; reflexivity.
  destruct (String.eqb_spec d EmptyString) as [-> | Hd0]; simpl.
  - destruct (every <=? 0); simpl.
    all: do 2 eexists; split; [rewrite <- ?app_assoc; reflexivity |].
    all: repeat split; try reflexivity; congruence.
  - destruct (logFullDiff fl), (macNotify fl), (macClipboard fl),
      (every <=? 0); simpl.
    all: do 2 eexists; split; [rewrite <- ?app_assoc; reflexivity |].
    all: repeat split; try reflexivity; congruence.
Qed.

Lemma getURLText_frame (o : Oracle) (addr : string) (w w0 : World)
    (r : string * option error) :
  returns (getURLText o addr) w r -> returns (getURLText o addr) w0 r.
Proof.
  intros [w1 H]. unfold returns.
  exec; eauto.
Qed.

(** No change: the stored snapshot equals the fetched text. *)
Lemma diffURL_unchanged (o : Oracle) (addr : string) (w : World) (T name : string) :
  returns (getURLText o addr) w (T, None) ->
  statePath fl o addr = (name, None) ->
  files w !! name = Some T ->
  ReadFile_fault o name = None ->
  exists w' tr,
    diffURL fl o addr w = Some ((EmptyString, 0, None), w')
    /\ trace w' = trace w ++ tr
    /\ files w' = files w
    /\ called_reportDiffs tr = false
    /\ wrote_file tr = false
    /\ write_failed tr = false
    /\ reported tr = false.
Proof.
  intros [w1 Hfetch] Hpath Hsome Hrf.
  exec.
  all: try (rewrite String.eqb_refl in *; discriminate).
  all: do 2 eexists; split; [reflexivity |]; split; [trace_ext |].
  all: repeat split; reflexivity.
Qed.

(** C4. When the snapshot on disk equals the fetched text, the whole tick,
    whatever the interval and jitter, produces no report, makes no call of
    the renderer, writes no file and leaves the files as they were; and
    [diffURL] itself returns the empty diff with no edits and no error. *)
Theorem watch_tick_unchanged (o : Oracle) (addr : string) (every jitter : Z)
    (w : World) (T name : string) :
  returns (getURLText o addr) w (T, None) ->
  statePath fl o addr = (name, None) ->
  files w !! name = Some T ->
  ReadFile_fault o name = None ->
  returns (diffURL fl o addr) w (EmptyString, 0, None)
  /\ exists s w' tr,
      watch_tick fl o addr every jitter w = Some (s, w')
      /\ trace w' = trace w ++ tr
      /\ reported tr = false
      /\ called_reportDiffs tr = false
      /\ wrote_file tr = false
      /\ files w' = files w.
Proof.
  intros Hfetch Hpath Hsome Hrf.
  split.
  { destruct (diffURL_unchanged o addr w T name) as (w' & tr & H & _); auto.
    exists w'. exact H. }
  destruct (reset_timer_spec o addr every jitter)
    as (t & tr0 & Hreset & Hrep0 & Hwr0 & Hcall0 & _).
  destruct (diffURL_unchanged o addr
              {| files := files w; trace := trace w ++ tr0 |} T name)
    as (w1 & tr1 & Hd & Htr1 & Hfiles1 & Hcall1 & Hwr1 & _ & Hrep1);
    [eapply getURLText_frame; eassumption | assumption..|].
  destruct (watch_tick_run o addr every jitter w t tr0 _ _ _ w1 Hreset Hd)
    as (s & tr2 & Htick & Hwr2 & Hcall2 & Hrep2 & _).
  exists s, {| files := files w1; trace := trace w1 ++ tr2 |}, (tr0 ++ tr1 ++ tr2).
  split; [exact Htick |].
  simpl in *. rewrite Htr1, <- !app_assoc.
  split; [reflexivity |].
  unfold reported, called_reportDiffs, wrote_file in *.
  repeat split; auto using existsb_app_false.
Qed.

(** [diffURL] itself reports nothing to the user. *)
Lemma diffURL_silent (o : Oracle) (addr : string) (w : World)
    (r : string * Z * option error) (w' : World) :
  diffURL fl o addr w = Some (r, w') ->
  exists tr, trace w' = trace w ++ tr /\ reported tr = false.
Proof.
  intros H. exec.
  all: eexists; split; [trace_ext | reflexivity].
Qed.

(** C10. When [diffURL] has returned without error, having changed the
    world from [w] to [w'], and the context in force has expired by then,
    [diffURLWithTimeout] returns the diff and the count with a context
    error in place of nil, and the world stays [w']: what [diffURL] wrote
    remains written.  The tick that made the call logs that error as a
    warning, reports nothing and loops. *)
Theorem diffURLWithTimeout_context_error (o : Oracle) (timeout : Z)
    (addr : string) (w w' : World) (d : string) (n : Z) (cause : error) :
  diffURL fl o addr w = Some ((d, n, None), w') ->
  (if 0 <? timeout then timeout_ctx_Err o (requestTimeout fl)
   else shared_ctx_Err o) = Some cause ->
  diffURLWithTimeout fl o timeout addr w
    = Some ((d, n, Some (ErrChecking addr cause)), w')
  /\ (timeout = requestTimeout fl ->
      forall every jitter,
      exists t w'' tr,
        watch_tick fl o addr every jitter w = Some (Looping t, w'')
        /\ files w'' = files w'
        /\ trace w'' = trace w ++ tr
        /\ last tr = Some (EvWarning (MsgChecking addr (ErrChecking addr cause)))
        /\ reported tr = false).
Proof.
  intros Hd Hctx. split.
  - unfold diffURLWithTimeout, bind, ret. rewrite Hd, Hctx. reflexivity.
  - intros -> every jitter.
    destruct (reset_timer_spec o addr every jitter)
      as (t & tr0 & Hreset & Hrep0 & _).
    destruct (diffURL_trace_frame o addr w _ w' (trace w ++ tr0) Hd)
      as (tr1 & Htr1 & Hd0).
    destruct (diffURL_silent o addr w _ w' Hd) as (tr1' & Htr1' & Hrep1).
    assert (tr1' = tr1) as -> by (rewrite Htr1 in Htr1'; eapply app_inv_head; eauto).
    destruct (watch_tick_run o addr every jitter w t tr0 _ _ _ _ Hreset Hd0)
      as (s & tr2 & Htick & _ & _ & _ & Hs).
    rewrite Hctx in Hs. destruct Hs as [-> ->].
    do 3 eexists. split; [exact Htick |]. simpl.
    split; [reflexivity |].
    split; [rewrite <- !app_assoc; reflexivity |].
    split.
    + rewrite app_assoc. apply last_snoc.
    + unfold reported in *. rewrite !existsb_app, Hrep0, Hrep1. reflexivity.
Qed.

(** In repeat mode every tick ends looping, with the timer as the reset
    block left it. *)
Lemma watch_tick_repeat (o : Oracle) (addr : string) (every jitter : Z) (w : World) :
  0 < every ->
  exists t tr0 w',
    (forall w0, reset_timer o addr every jitter w0
                = Some (t, {| files := files w0; trace := trace w0 ++ tr0 |}))
    /\ watch_tick fl o addr every jitter w = Some (Looping t, w').
Proof.
  intros He.
  destruct (reset_timer_spec o addr every jitter) as (t & tr0 & Hreset & _).
  destruct (diffURL_total o addr {| files := files w; trace := trace w ++ tr0 |})
    as ([[d n] err] & w1 & Hd).
  destruct (watch_tick_run o addr every jitter w t tr0 _ _ _ _ Hreset Hd)
    as (s & tr2 & Htick & _ & _ & _ & Hs).
  exists t, tr0. eexists. split; [exact Hreset |].
  rewrite Htick. do 2 f_equal.
  destruct (Z.leb_spec every 0); [lia |].
  destruct (match err with Some _ => _ | None => _ end); tauto.
Qed.

(** C7 (amended). For a positive interval and any jitter, both within
    [int64]: the tick ends with the timer reset to [every + j] in [int64]
    arithmetic, where [j] is zero when the jitter is zero or negative and
    is drawn from [0, jitter) when it is positive; and when the jitter is
    not negative and [every + jitter] does not exceed the largest [int64],
    the delay is [every + j] exactly and lies in [every, every + jitter]. *)
Theorem watch_tick_delay (o : Oracle) (addr : string) (every jitter : Z) (w : World) :
  0 < every <= Duration.max_int64 ->
  jitter <= Duration.max_int64 ->
  exists d j w',
    watch_tick fl o addr every jitter w = Some (Looping (Some d), w')
    /\ d = Duration.add every j
    /\ (jitter <= 0 -> j = 0 /\ d = every)
    /\ (0 < jitter -> 0 <= j < jitter)
    /\ (0 <= jitter -> every + jitter <= Duration.max_int64 ->
        scheduling_bound every jitter d).
Proof.
  intros He Hj.
  destruct (watch_tick_repeat o addr every jitter w) as (t & tr0 & w' & Hreset & Htick);
    [lia |].
  destruct (reset_timer_spec o addr every jitter)
    as (t' & tr0' & Hreset' & _ & _ & _ & _ & Ht).
  pose proof (Hreset w) as H1. rewrite Hreset' in H1.
  injection H1 as <- _.
  destruct Ht as (j & -> & Hpos & Hneg); [lia |].
  exists (Duration.add every j), j, w'.
  split; [exact Htick |]. split; [reflexivity |].
  assert (Hmin : Duration.min_int64 <= 0) by (unfold Duration.min_int64; lia).
  split; [| split].
  - intros Hle. rewrite (Hneg Hle). split; [reflexivity |].
    unfold Duration.add. rewrite wrap_in_range; lia.
  - intros Hlt. apply Hpos. lia.
  - intros Hge Hsum.
    assert (Hjr : 0 <= j <= jitter).
    { destruct (Z.eq_dec jitter 0) as [-> | Hnz]; [rewrite Hneg; lia |].
      assert (0 <= j < jitter) by (apply Hpos; lia). lia. }
    unfold Duration.add. rewrite wrap_in_range by lia.
    exists j. split; [reflexivity |]. split; [| lia].
    destruct (Z.eq_dec jitter 0) as [-> | Hnz].
    + right. split; [reflexivity | apply Hneg; lia].
    + left. apply Hpos. lia.
Qed.

(** A failed fetch ends [diffURL] at once: the error comes back, nothing
    is read or written. *)
Lemma diffURL_fetch_failure (o : Oracle) (addr : string) (w : World)
    (s : string) (e : error) :
  returns (getURLText o addr) w (s, Some e) ->
  exists w' tr,
    diffURL fl o addr w = Some ((EmptyString, 0, Some e), w')
    /\ trace w' = trace w ++ tr
    /\ files w' = files w
    /\ wrote_file tr = false.
Proof.
  intros [w1 Hfetch]. exec.
  all: do 2 eexists; split; [reflexivity |]; split; [trace_ext |].
  all: split; reflexivity.
Qed.

(** A tick in one-shot mode whose fetch fails: the warning is logged, no
    file is written, and the loop goes on with the timer spent. *)
Lemma watch_tick_oneshot_failure (o : Oracle) (addr : string)
    (every jitter : Z) (w : World) (s : string) (e : error) :
  every <= 0 ->
  returns (getURLText o addr) w (s, Some e) ->
  exists w' tr,
    watch_tick fl o addr every jitter w = Some (Looping None, w')
    /\ trace w' = trace w ++ tr
    /\ last tr = Some (EvWarning (MsgChecking addr e))
    /\ wrote_file tr = false
    /\ files w' = files w.
Proof.
  intros He Hfetch.
  destruct (reset_timer_spec o addr every jitter)
    as (t & tr0 & Hreset & _ & Hwr0 & _ & Ht & _).
  rewrite (Ht He) in Hreset. clear Ht.
  destruct (diffURL_fetch_failure o addr
              {| files := files w; trace := trace w ++ tr0 |} s e)
    as (w1 & tr1 & Hd & Htr1 & Hfiles1 & Hwr1);
    [eapply getURLText_frame; eassumption |].
  destruct (watch_tick_run o addr every jitter w None tr0 _ _ _ _ Hreset Hd)
    as (st & tr2 & Htick & Hwr2 & _ & _ & Hs).
  simpl in Hs. destruct Hs as [-> ->].
  do 2 eexists. split; [exact Htick |]. simpl in *.
  rewrite Htr1, <- !app_assoc.
  split; [reflexivity |].
  split; [rewrite !app_assoc; apply last_snoc |].
  split; [| assumption].
  unfold wrote_file in *. rewrite !existsb_app, Hwr0, Hwr1. reflexivity.
Qed.

(** With the timer spent, the only case the [select] can take is the
    cancellation of the context. *)
Lemma watch_step_spent (addr : string) (every jitter : Z) (w : World)
    (c : select_case) (st' : status * World) :
  watch_step fl addr every jitter (Looping None, w) c st' ->
  c = CtxDone /\ st' = (Returned, w).
Proof. intros H. inversion H; subst. split; reflexivity. Qed.

Lemma watch_step_fn_correct (addr : string) (every jitter : Z)
    (st st' : status * World) (c : select_case) :
  watch_step fl addr every jitter st c st'
  <-> watch_step_fn fl addr every jitter st c = Some st'.
Proof.
  split.
  - intros H. destruct H as [[d |] w | d o w s w' H]; simpl;
      [reflexivity | reflexivity | assumption].
  - destruct st as [[[d |] |] w], c as [| o]; simpl; intros H;
      try discriminate.
    + injection H as <-. constructor.
    + destruct st' as [s w']. now constructor.
    + injection H as <-. constructor.
Qed.

(** ** The two revisions *)

Lemma stateName_short (addr : string) :
  len (Legacy.stateName addr) <= 127 ->
  stateName addr = Legacy.stateName addr.
Proof.
  intros Hlen. unfold stateName. fold (Legacy.stateName addr).
  destruct (Z.ltb_spec 127 (len (Legacy.stateName addr))); [lia | reflexivity].
Qed.

(** C8. For an address whose file name [digest_sanitized] is at most 127
    bytes long, the two revisions of [diffURL], run in the same world,
    both return, with the same diff and the same count of edits, and leave
    the same files, in every execution; in those where the fetch, the
    state read and the state write do not fail, both return a nil
    error. *)
Theorem diffURL_legacy_agree (o : Oracle) (addr : string) (w : World) :
  len (Legacy.stateName addr) <= 127 ->
  exists d n err_old err_new w_old w_new tr,
    Legacy.diffURL fl o addr w = Some ((d, n, err_old), w_old)
    /\ diffURL fl o addr w = Some ((d, n, err_new), w_new)
    /\ files w_old = files w_new
    /\ trace w_new = trace w ++ tr
    /\ (fetch_failed tr || read_failed tr || write_failed tr = false ->
        err_old = None /\ err_new = None).
Proof.
  intros Hlen. apply stateName_short in Hlen.
  destruct (diffURL_total o addr w) as ([[d n] err] & w' & H).
  rewrite H. unfold_program. rewrite Hlen in *. split_program.
  all: do 7 eexists; split; [reflexivity |]; split; [reflexivity |].
  all: split; [reflexivity |]; split; [trace_ext |].
  all: simpl; intros; split; congruence.
Qed.

End Cycle.

(** ** The state file *)

Section StatePath.

Context {L : Libs}.

Lemma take_length_le (n : nat) (s : string) : (String.length (take n s) <= n)%nat.
Proof.
  revert s. induction n as [|n IH]; intros [|a s]; simpl; try lia.
  specialize (IH s). lia.
Qed.

Lemma take_drop (n : nat) (s : string) : take n s +:+ drop n s = s.
Proof.
  revert s. induction n as [|n IH]; intros [|a s]; simpl; try reflexivity.
  now rewrite IH.
Qed.

(** C6. The path of the state file depends on the address, the state
    directory and the home directory only: with the same flag value and
    the same answer of [os.UserHomeDir], [statePath] returns the same.
    When it succeeds the path is [filepath.Join] of a directory and the
    file name; the file name is a prefix of the hexadecimal digest, an
    underscore and the sanitized address, and is at most 127 bytes
    long. *)
Theorem statePath_deterministic_bounded (fl1 fl2 : Flags) (o1 o2 : Oracle)
    (addr : string) :
  stateDir fl1 = stateDir fl2 ->
  UserHomeDir o1 = UserHomeDir o2 ->
  statePath fl1 o1 addr = statePath fl2 o2 addr
  /\ (forall p, statePath fl1 o1 addr = (p, None) ->
                exists dir, p = filepath_Join dir (stateName addr))
  /\ (exists rest,
        hex.EncodeToString (sha1.Sum (sha1.bytes_of_string addr)) +:+ "_"
          +:+ specialRE_ReplaceAllLiteralString addr "_"
        = stateName addr +:+ rest)
  /\ len (stateName addr) <= 127.
Proof.
  intros Hdir Hhome.
  split; [| split; [| split]].
  - unfold statePath. now rewrite Hdir, Hhome.
  - intros p. unfold statePath.
    destruct (HasPrefixByte (stateDir fl1) "~").
    + destruct (UserHomeDir o1) as [home [e |]]; intros H; [discriminate |].
      injection H as <-. eauto.
    + intros H. injection H as <-. eauto.
  - unfold stateName.
    destruct (127 <? len _).
    + eexists. symmetry. apply take_drop.
    + exists EmptyString. now rewrite append_empty_r.
  - unfold stateName.
    destruct (Z.ltb_spec 127 (len (hex.EncodeToString (sha1.Sum (sha1.bytes_of_string addr))
                 +:+ "_" +:+ specialRE_ReplaceAllLiteralString addr "_")))
      as [Hlt | Hge]; [| exact Hge].
    unfold len. pose proof (take_length_le 127 (hex.EncodeToString (sha1.Sum (sha1.bytes_of_string addr))
                 +:+ "_" +:+ specialRE_ReplaceAllLiteralString addr "_")).
    lia.
Qed.

End StatePath.

Lemma statePath_deterministic_bounded_witness :
  let L := Sample.libs in
  let o1 := Sample.serving "Hello" in
  let o2 := Sample.unreachable in
  stateDir Sample.flags = stateDir Sample.flags
  /\ UserHomeDir o1 = UserHomeDir o2
  /\ statePath Sample.flags o1 Sample.url = statePath Sample.flags o2 Sample.url
  /\ len (stateName Sample.url) <= 127.
Proof.
  intros L o1 o2.
  split; [reflexivity |]. split; [reflexivity |].
  destruct (statePath_deterministic_bounded (L := L) Sample.flags Sample.flags
              o1 o2 Sample.url eq_refl eq_refl) as (Hsame & _ & _ & Hlen).
  split; assumption.
Defined.

Example statePath_example :
  statePath (L := Sample.libs) Sample.flags (Sample.serving "Hello") Sample.url
  = ("/mnt/data/89dce6a446a69d6b9bdc01ac75251e4c322bcdff_http_example_com", None).
Proof. vm_compute. reflexivity. Qed.

(** ** The theorems at work on the sample instance *)

Lemma url_file_path (o : Oracle) :
  statePath (L := Sample.libs) Sample.flags o Sample.url = (Sample.url_file, None).
Proof. reflexivity. Qed.

Lemma serving_fetch (text : string) (w : World) :
  returns (getURLText (Sample.serving text) Sample.url) w (text, None).
Proof. eexists. reflexivity. Qed.

Lemma diffURL_first_observation_witness :
  exists w' tr,
    trace w' = trace Sample.empty_world ++ tr
    /\ diffURL (L := Sample.libs) Sample.flags (Sample.serving "Hello") Sample.url
         Sample.empty_world
       = Some (("(initial fetch)", 0, None), w')
    /\ files w' = <[Sample.url_file := "Hello"]> (files Sample.empty_world).
Proof.
  destruct (diffURL_first_observation (L := Sample.libs) Sample.flags
              (Sample.serving "Hello") Sample.url Sample.empty_world
              "Hello" Sample.url_file)
    as (w' & tr & Htr & Hne & _).
  - apply serving_fetch.
  - apply url_file_path.
  - reflexivity.
  - reflexivity.
  - reflexivity.
  - reflexivity.
  - exists w', tr. split; [exact Htr |].
    destruct Hne as (Hd & Hf & _); [discriminate |].
    split; assumption.
Defined.

(** With an empty fetched text the first observation is not reported and
    nothing is stored. *)
Lemma first_observation_empty_text :
  ~ first_observation_property (L := Sample.libs) Sample.flags
      (Sample.serving EmptyString) Sample.url Sample.empty_world
      EmptyString Sample.url_file.
Proof.
  intros H.
  destruct H as (w' & Hd & _).
  - apply serving_fetch.
  - apply url_file_path.
  - reflexivity.
  - reflexivity.
  - reflexivity.
  - reflexivity.
  - vm_compute in Hd. discriminate Hd.
Qed.

Example first_observation_empty_text_run :
  exists w',
    diffURL (L := Sample.libs) Sample.flags (Sample.serving EmptyString) Sample.url
      Sample.empty_world
    = Some ((EmptyString, 0, None), w')
    /\ files w' = ∅.
Proof. eexists. split; reflexivity. Qed.

Lemma world_with_file (text : string) :
  files (Sample.world_with text) !! Sample.url_file = Some text.
Proof. apply lookup_singleton_eq. Qed.

Lemma watch_tick_unchanged_witness :
  returns (diffURL (L := Sample.libs) Sample.flags (Sample.serving "Hello world")
             Sample.url)
    (Sample.world_with "Hello world") (EmptyString, 0, None)
  /\ exists s w' tr,
      watch_tick (L := Sample.libs) Sample.flags (Sample.serving "Hello world")
        Sample.url 300000000000 0 (Sample.world_with "Hello world")
      = Some (s, w')
      /\ trace w' = trace (Sample.world_with "Hello world") ++ tr
      /\ reported tr = false
      /\ called_reportDiffs tr = false
      /\ wrote_file tr = false
      /\ files w' = files (Sample.world_with "Hello world").
Proof.
  apply (watch_tick_unchanged (L := Sample.libs) Sample.flags
           (Sample.serving "Hello world") Sample.url 300000000000 0
           (Sample.world_with "Hello world") "Hello world" Sample.url_file).
  - apply serving_fetch.
  - apply url_file_path.
  - apply world_with_file.
  - reflexivity.
Defined.

Lemma diffURL_empty_snapshot_witness :
  exists w' tr,
    diffURL (L := Sample.libs) Sample.flags (Sample.serving "Hello") Sample.url
      (Sample.world_with EmptyString)
    = Some (("(initial fetch)", 0, None), w')
    /\ trace w' = trace (Sample.world_with EmptyString) ++ tr
    /\ files w' = <[Sample.url_file := "Hello"]> (files (Sample.world_with EmptyString))
    /\ called_reportDiffs tr = false
    /\ exists w0',
        diffURL (L := Sample.libs) Sample.flags (Sample.serving "Hello") Sample.url
          {| files := delete Sample.url_file (files (Sample.world_with EmptyString));
             trace := trace (Sample.world_with EmptyString) |}
        = Some (("(initial fetch)", 0, None), w0')
        /\ files w0' = files w'.
Proof.
  apply (diffURL_empty_snapshot (L := Sample.libs) Sample.flags
           (Sample.serving "Hello") Sample.url (Sample.world_with EmptyString)
           "Hello" Sample.url_file).
  - apply serving_fetch.
  - discriminate.
  - apply url_file_path.
  - apply world_with_file.
  - reflexivity.
  - reflexivity.
  - reflexivity.
Defined.

Lemma timing_out_fetch (text : string) (w : World) :
  returns (getURLText (Sample.timing_out (Sample.serving text)) Sample.url) w
    (text, None).
Proof. eexists. reflexivity. Qed.

(** The request runs into its deadline after the first snapshot has been
    written: the caller gets an error, the file is there. *)
Lemma diffURLWithTimeout_context_error_witness :
  exists w',
    diffURLWithTimeout (L := Sample.libs) Sample.flags
      (Sample.timing_out (Sample.serving "Hello"))
      (requestTimeout Sample.flags) Sample.url Sample.empty_world
    = Some (("(initial fetch)", 0,
             Some (ErrChecking Sample.url ErrDeadlineExceeded)), w')
    /\ files Sample.empty_world !! Sample.url_file = None
    /\ files w' !! Sample.url_file = Some "Hello".
Proof.
  assert (Hd : exists w',
             diffURL (L := Sample.libs) Sample.flags
               (Sample.timing_out (Sample.serving "Hello")) Sample.url
               Sample.empty_world
             = Some (("(initial fetch)", 0, None), w')
             /\ files w' !! Sample.url_file = Some "Hello").
  { eexists. split; [reflexivity |]. apply lookup_insert_eq. }
  destruct Hd as (w' & Hd & Hf).
  exists w'.
  split.
  - apply (diffURLWithTimeout_context_error (L := Sample.libs) Sample.flags
             (Sample.timing_out (Sample.serving "Hello"))
             (requestTimeout Sample.flags) Sample.url Sample.empty_world w'
             "(initial fetch)" 0 ErrDeadlineExceeded Hd).
    reflexivity.
  - split; [reflexivity | exact Hf].
Defined.

Lemma diffURL_legacy_agree_witness :
  len (Legacy.stateName Sample.url) <= 127
  /\ exists d n err_old err_new w_old w_new tr,
      Legacy.diffURL (L := Sample.libs) Sample.flags (Sample.serving "Hello")
        Sample.url Sample.empty_world
      = Some ((d, n, err_old), w_old)
      /\ diffURL (L := Sample.libs) Sample.flags (Sample.serving "Hello")
           Sample.url Sample.empty_world
         = Some ((d, n, err_new), w_new)
      /\ files w_old = files w_new
      /\ trace w_new = trace Sample.empty_world ++ tr
      /\ (fetch_failed tr || read_failed tr || write_failed tr = false ->
          err_old = None /\ err_new = None).
Proof.
  assert (Hlen : len (Legacy.stateName Sample.url) <= 127)
    by (vm_compute; discriminate).
  split; [exact Hlen |].
  exact (diffURL_legacy_agree (L := Sample.libs) Sample.flags
           (Sample.serving "Hello") Sample.url Sample.empty_world Hlen).
Defined.

Lemma watch_tick_delay_witness :
  exists d j w',
    watch_tick (L := Sample.libs) Sample.flags
      (Sample.drawing 7000000000000000057 (Sample.serving "Hello")) Sample.url
      300000000000 120000000000 Sample.empty_world
    = Some (Looping (Some d), w')
    /\ d = Duration.add 300000000000 j
    /\ 0 <= j < 120000000000
    /\ scheduling_bound 300000000000 120000000000 d.
Proof.
  destruct (watch_tick_delay (L := Sample.libs) Sample.flags
              (Sample.drawing 7000000000000000057 (Sample.serving "Hello"))
              Sample.url 300000000000 120000000000 Sample.empty_world)
    as (d & j & w' & Htick & Hd & _ & Hj & Hb).
  - unfold Duration.max_int64. lia.
  - unfold Duration.max_int64. lia.
  - exists d, j, w'. split; [exact Htick |]. split; [exact Hd |].
    split; [apply Hj; lia |].
    apply Hb; [lia | unfold Duration.max_int64; lia].
Defined.

(** The bound fails in two ways: with a negative jitter, for which the code
    adds nothing to the interval, and with an interval so large that
    adding the jitter wraps around. *)
Lemma scheduling_bound_fails :
  (exists d w',
     watch_tick (L := Sample.libs) Sample.flags (Sample.serving "Hello")
       Sample.url 1000000000 (-1) Sample.empty_world
     = Some (Looping (Some d), w')
     /\ d = 1000000000
     /\ ~ scheduling_bound 1000000000 (-1) d)
  /\ (exists d w',
        watch_tick (L := Sample.libs) Sample.flags
          (Sample.drawing 1 (Sample.serving "Hello")) Sample.url
          Duration.max_int64 2 Sample.empty_world
        = Some (Looping (Some d), w')
        /\ d = Duration.min_int64
        /\ ~ scheduling_bound Duration.max_int64 2 d).
Proof.
  split.
  - destruct (watch_tick_repeat (L := Sample.libs) Sample.flags
                (Sample.serving "Hello") Sample.url 1000000000 (-1)
                Sample.empty_world) as (t & tr0 & w' & Hreset & Htick); [lia |].
    specialize (Hreset Sample.empty_world). vm_compute in Hreset.
    injection Hreset as <- _.
    exists 1000000000, w'. split; [exact Htick |]. split; [reflexivity |].
    intros (j & Hd & Hj & Hb). lia.
  - destruct (watch_tick_repeat (L := Sample.libs) Sample.flags
                (Sample.drawing 1 (Sample.serving "Hello")) Sample.url
                Duration.max_int64 2 Sample.empty_world)
      as (t & tr0 & w' & Hreset & Htick); [reflexivity |].
    specialize (Hreset Sample.empty_world). vm_compute in Hreset.
    injection Hreset as <- _.
    exists Duration.min_int64, w'. split; [exact Htick |]. split; [reflexivity |].
    intros (j & Hd & Hj & Hb).
    unfold Duration.min_int64, Duration.max_int64 in *. lia.
Qed.

(** C3. One-shot mode, a page that cannot be reached: after the first tick
    the warning is logged and no file exists, yet [watch] has not returned;
    the timer is spent, and the only case the [select] can still take is the
    cancellation of the context. *)
Theorem watch_oneshot_failed_fetch_blocks :
  exists w',
    watch_run (L := Sample.libs) Sample.flags Sample.url 0 120000000000
      [TimerC Sample.unreachable] (watch_init Sample.empty_world)
    = Some (Looping None, w')
    /\ last (trace w')
       = Some (EvWarning (MsgChecking Sample.url
                 (ErrOther "dial tcp: connection refused")))
    /\ files w' = ∅
    /\ forall c st',
        watch_step (L := Sample.libs) Sample.flags Sample.url 0 120000000000
          (Looping None, w') c st'
        -> c = CtxDone /\ st' = (Returned, w').
Proof.
  eexists. split; [reflexivity |].
  split; [reflexivity |]. split; [reflexivity |].
  intros c st' H. eapply watch_step_spent. exact H.
Qed.

(** * Further properties *)

(** ** The renderer *)

Section RendererMore.

Context {L : Libs}.

Lemma writeEqual_prefix (w t : string) :
  writeEqual w t
  = match writeEqual EmptyString t with
    | Some out => Some (w +:+ out)
    | None => None
    end.
Proof.
  unfold writeEqual.
  destruct (LastIndexByte t nl =? IndexByte t nl); [reflexivity |].
  destruct (slice_to t (IndexByte t nl)) as [head |]; [| reflexivity].
  destruct (slice_from t (LastIndexByte t nl)) as [tail |]; [| reflexivity].
  simpl. now rewrite !append_assoc.
Qed.

Lemma reportDiffs_body_prefix (w : string) (e : Z) (d : Diff) :
  exists out k,
    reportDiffs_body (EmptyString, 0) d = Some (out, k)
    /\ k = (if is_edit d then 1 else 0)
    /\ reportDiffs_body (w, e) d = Some (w +:+ out, e + k).
Proof.
  unfold reportDiffs_body, is_edit.
  destruct (Type_ d).
  - do 2 eexists. split; [reflexivity |]. split; [reflexivity |].
    simpl. now rewrite !append_assoc.
  - do 2 eexists. split; [reflexivity |]. split; [reflexivity |].
    simpl. now rewrite !append_assoc.
  - rewrite (writeEqual_prefix w).
    destruct (writeEqual_total EmptyString (Text d)) as [out ->].
    exists out, 0. split; [reflexivity |]. split; [reflexivity |].
    now rewrite Z.add_0_r.
Qed.

Lemma reportDiffs_loop_prefix (ds : list Diff) (w : string) (e : Z) :
  exists out,
    reportDiffs_loop ds (EmptyString, 0)
      = Some (out, Z.of_nat (length (List.filter is_edit ds)))
    /\ reportDiffs_loop ds (w, e)
       = Some (w +:+ out, e + Z.of_nat (length (List.filter is_edit ds))).
Proof.
  revert w e. induction ds as [|d ds IH]; intros w e.
  - exists EmptyString. simpl. split; [reflexivity |].
    now rewrite append_empty_r, Z.add_0_r.
  - destruct (reportDiffs_body_prefix w e d) as (o1 & k & H0 & Hk & Hw).
    destruct (IH o1 k) as (o2 & He & H1).
    destruct (IH (w +:+ o1) (e + k)) as (o2' & He' & H2).
    rewrite He in He'. injection He' as <-.
    assert (Hlen : Z.of_nat (length (List.filter is_edit (d :: ds)))
                   = k + Z.of_nat (length (List.filter is_edit ds))).
    { simpl. rewrite Hk. destruct (is_edit d); simpl length; lia. }
    exists (o1 +:+ o2).
    cbn [reportDiffs_loop]. rewrite H0, Hw, H1, H2, Hlen.
    split; [reflexivity |].
    rewrite append_assoc. do 2 f_equal. lia.
Qed.

(** X1. [reportDiffs] returns as its count the number of inserted and
    deleted spans of the cleaned-up diff, whatever the builder held. *)
Theorem reportDiffs_counts_edits (old new w : string) :
  exists sb,
    reportDiffs old new w
    = Some (sb, Z.of_nat (length (List.filter is_edit
                                    (DiffCleanupSemantic (DiffMain old new true))))).
Proof.
  unfold reportDiffs.
  destruct (reportDiffs_loop_prefix (DiffCleanupSemantic (DiffMain old new true)) w 0)
    as (out & _ & H).
  rewrite H. eauto.
Qed.

(** X2. [reportDiffs] only appends: the report written after [w] is [w]
    followed by the report written to an empty builder, with the same
    count. *)
Theorem reportDiffs_appends (old new : string) :
  exists out n,
    reportDiffs old new EmptyString = Some (out, n)
    /\ forall w, reportDiffs old new w = Some (w +:+ out, n).
Proof.
  unfold reportDiffs.
  destruct (reportDiffs_loop_prefix (DiffCleanupSemantic (DiffMain old new true))
              EmptyString 0) as (out & H0 & _).
  exists out. eexists. split; [exact H0 |].
  intros w.
  destruct (reportDiffs_loop_prefix (DiffCleanupSemantic (DiffMain old new true)) w 0)
    as (out' & H0' & Hw).
  rewrite H0 in H0'. injection H0' as <-.
  exact Hw.
Qed.

End RendererMore.

(** ** The name of the state file *)

Section StateNameMore.

Lemma be_bytes_length (n : nat) (x : Z) : length (sha1.be_bytes n x) = n.
Proof. unfold sha1.be_bytes. now rewrite length_map, length_rev, length_seq. Qed.

Lemma be_bytes_range (n : nat) (x : Z) :
  Forall (fun b => 0 <= b < 256) (sha1.be_bytes n x).
Proof.
  unfold sha1.be_bytes. apply Forall_map, Forall_forall. intros i _. simpl.
  change 255 with (Z.ones 8). rewrite Z.land_ones by lia.
  apply Z.mod_pos_bound. lia.
Qed.

Lemma sha1_Sum_shape (data : list Z) :
  length (sha1.Sum data) = 20%nat
  /\ Forall (fun b => 0 <= b < 256) (sha1.Sum data).
Proof.
  unfold sha1.Sum.
  destruct (sha1.blocks _ _ _) as [[[[h0 h1] h2] h3] h4].
  split.
  - rewrite !length_app, !be_bytes_length. reflexivity.
  - repeat apply Forall_app_2; apply be_bytes_range.
Qed.

Lemma hex_length (l : list Z) :
  len (hex.EncodeToString l) = 2 * Z.of_nat (length l).
Proof.
  induction l as [|b l IH]; [reflexivity |].
  cbn [hex.EncodeToString length]. rewrite !len_String, IH. lia.
Qed.

Lemma hex_digit_cases (n : Z) :
  0 <= n < 16 ->
  In n [0; 1; 2; 3; 4; 5; 6; 7; 8; 9; 10; 11; 12; 13; 14; 15].
Proof. intros H. simpl. lia. Qed.

Lemma hex_digit_word (n : Z) : 0 <= n < 16 -> isWord (hex.digit n) = true.
Proof.
  intros H. apply hex_digit_cases in H. simpl in H.
  repeat (destruct H as [<- | H]; [reflexivity |]). contradiction.
Qed.

Lemma hex_digit_inj (a b : Z) :
  0 <= a < 16 -> 0 <= b < 16 -> hex.digit a = hex.digit b -> a = b.
Proof.
  intros Ha Hb. apply hex_digit_cases in Ha, Hb. simpl in Ha, Hb.
  repeat (destruct Ha as [<- | Ha]; [| ]);
    try contradiction;
    repeat (destruct Hb as [<- | Hb]; [vm_compute; congruence |]);
    contradiction.
Qed.

Lemma all_bytes_append (p : ascii -> bool) (s t : string) :
  all_bytes p (s +:+ t) = all_bytes p s && all_bytes p t.
Proof.
  induction s as [|a s IH]; simpl; [reflexivity |].
  now rewrite IH, andb_assoc.
Qed.

Lemma all_bytes_take (p : ascii -> bool) (n : nat) (s : string) :
  all_bytes p s = true -> all_bytes p (take n s) = true.
Proof.
  revert s. induction n as [|n IH]; intros [|a s]; simpl; try reflexivity.
  intros [Ha Hs]%andb_true_iff. rewrite Ha. simpl. now apply IH.
Qed.

Lemma all_bytes_absent (p : ascii -> bool) (c : ascii) (s : string) :
  all_bytes p s = true -> p c = false -> IndexByte s c = -1.
Proof.
  intros Hs Hc. apply IndexByte_absent.
  induction s as [|a s IH]; simpl in *; [reflexivity |].
  apply andb_true_iff in Hs as [Ha Hs].
  destruct (Ascii.eqb_spec a c) as [-> | _]; [congruence |].
  now apply IH.
Qed.

Lemma hex_word (l : list Z) :
  Forall (fun b => 0 <= b < 256) l ->
  all_bytes isWord (hex.EncodeToString l) = true.
Proof.
  induction 1 as [|b l Hb _ IH]; [reflexivity |].
  cbn [hex.EncodeToString all_bytes].
  rewrite !hex_digit_word, IH; [reflexivity | |].
  - apply Z.mod_pos_bound. lia.
  - split; [apply Z.div_pos; lia | apply Z.div_lt_upper_bound; lia].
Qed.

Lemma hex_inj (l1 l2 : list Z) :
  Forall (fun b => 0 <= b < 256) l1 ->
  Forall (fun b => 0 <= b < 256) l2 ->
  hex.EncodeToString l1 = hex.EncodeToString l2 -> l1 = l2.
Proof.
  intros H1. revert l2. induction H1 as [|a l1 Ha _ IH]; intros l2 H2 Heq.
  - destruct l2; [reflexivity | discriminate].
  - destruct H2 as [|b l2 Hb H2]; [discriminate |].
    cbn [hex.EncodeToString] in Heq. injection Heq as Hhi Hlo Hrest.
    assert (Hq : a / 16 = b / 16).
    { apply hex_digit_inj; try assumption;
        (split; [apply Z.div_pos; lia | apply Z.div_lt_upper_bound; lia]). }
    assert (Hr : a mod 16 = b mod 16).
    { apply hex_digit_inj; try assumption; apply Z.mod_pos_bound; lia. }
    f_equal; [| now apply IH].
    rewrite (Z.div_mod a 16), (Z.div_mod b 16) by lia. congruence.
Qed.

Lemma replaceSpecial_word (inRun : bool) (s : string) :
  all_bytes isWord (replaceSpecial inRun s "_") = true.
Proof.
  revert inRun. induction s as [|c s IH]; intros inRun; simpl; [reflexivity |].
  destruct (isWord c) eqn:Hc.
  - simpl. now rewrite Hc, IH.
  - destruct inRun; [apply IH |].
    simpl. apply IH.
Qed.

Lemma replaceSpecial_length (inRun : bool) (s : string) :
  len (replaceSpecial inRun s "_") <= len s.
Proof.
  revert inRun. induction s as [|c s IH]; intros inRun; simpl; [reflexivity |].
  destruct (isWord c).
  - rewrite !len_String. specialize (IH false). lia.
  - destruct inRun.
    + rewrite len_String. specialize (IH true). lia.
    + simpl. rewrite !len_String. specialize (IH true). lia.
Qed.

Lemma replaceSpecial_id (s : string) :
  all_bytes isWord s = true -> replaceSpecial false s "_" = s.
Proof.
  induction s as [|c s IH]; simpl; [reflexivity |].
  intros [Hc Hs]%andb_true_iff. rewrite Hc. now rewrite IH.
Qed.

(** X3. Sanitising an address never makes it longer, leaves only bytes of
    [0-9A-Za-z_], leaves an address of such bytes unchanged, and is
    therefore idempotent. *)
Theorem sanitize_properties (addr : string) :
  let s := specialRE_ReplaceAllLiteralString addr "_" in
  len s <= len addr
  /\ all_bytes isWord s = true
  /\ (all_bytes isWord addr = true -> s = addr)
  /\ specialRE_ReplaceAllLiteralString s "_" = s.
Proof.
  unfold specialRE_ReplaceAllLiteralString. cbv zeta.
  split; [apply replaceSpecial_length |].
  split; [apply replaceSpecial_word |].
  split; [apply replaceSpecial_id |].
  apply replaceSpecial_id, replaceSpecial_word.
Qed.

Lemma stateName_full_shape (addr : string) :
  let full := hex.EncodeToString (sha1.Sum (sha1.bytes_of_string addr)) +:+ "_"
                +:+ specialRE_ReplaceAllLiteralString addr "_" in
  all_bytes isWord full = true
  /\ 41 <= len full <= 41 + len addr
  /\ take 41 full = hex.EncodeToString (sha1.Sum (sha1.bytes_of_string addr)) +:+ "_".
Proof.
  cbv zeta.
  destruct (sha1_Sum_shape (sha1.bytes_of_string addr)) as [Hlen Hrange].
  pose proof (hex_length (sha1.Sum (sha1.bytes_of_string addr))) as Hhex.
  rewrite Hlen in Hhex.
  split; [| split].
  - rewrite !all_bytes_append, hex_word by assumption.
    unfold specialRE_ReplaceAllLiteralString. now rewrite replaceSpecial_word.
  - rewrite !len_append, Hhex.
    pose proof (replaceSpecial_length false addr) as Hs.
    pose proof (len_nonneg (specialRE_ReplaceAllLiteralString addr "_")).
    unfold specialRE_ReplaceAllLiteralString in *.
    change (len "_") with 1. lia.
  - rewrite <- append_assoc.
    replace 41%nat
      with (String.length (hex.EncodeToString (sha1.Sum (sha1.bytes_of_string addr)) +:+ "_")).
    + apply take_append.
    + apply Nat2Z.inj. fold (len (hex.EncodeToString (sha1.Sum (sha1.bytes_of_string addr)) +:+ "_")).
      rewrite len_append, Hhex. reflexivity.
Qed.

Lemma take_take (n m : nat) (s : string) :
  (n <= m)%nat -> take n (take m s) = take n s.
Proof.
  revert m s. induction n as [|n IH]; intros [|m] [|a s] H; simpl; try reflexivity; try lia.
  f_equal. apply IH. lia.
Qed.

Lemma len_take (n : nat) (s : string) :
  (n <= String.length s)%nat -> len (take n s) = Z.of_nat n.
Proof. intros H. unfold len. now rewrite take_length. Qed.

(** X4. The file name of the state file is made of bytes of [0-9A-Za-z_]
    only, so it holds no path separator and is neither empty nor a dot
    name: it is between 41 and 127 bytes long. *)
Theorem stateName_filesystem_safe (addr : string) :
  all_bytes isWord (stateName addr) = true
  /\ IndexByte (stateName addr) "/"%char = -1
  /\ IndexByte (stateName addr) "."%char = -1
  /\ 41 <= len (stateName addr) <= 127.
Proof.
  destruct (stateName_full_shape addr) as (Hword & Hlen & _). cbv zeta in *.
  assert (Hw : all_bytes isWord (stateName addr) = true).
  { unfold stateName. destruct (127 <? len _); [now apply all_bytes_take | assumption]. }
  split; [exact Hw |].
  split; [now apply (all_bytes_absent isWord) |].
  split; [now apply (all_bytes_absent isWord) |].
  unfold stateName.
  destruct (Z.ltb_spec 127 (len (hex.EncodeToString (sha1.Sum (sha1.bytes_of_string addr))
              +:+ "_" +:+ specialRE_ReplaceAllLiteralString addr "_"))) as [Hlt | Hge].
  - rewrite len_take; [lia |]. unfold len in Hlt. lia.
  - lia.
Qed.

(** X5. Truncation never reaches the digest: the file name always begins
    with the 40 hexadecimal digits of the digest and the underscore, so two
    addresses share a file name only if their SHA-1 digests are equal. *)
Theorem stateName_keeps_digest (a b : string) :
  take 41 (stateName a)
    = hex.EncodeToString (sha1.Sum (sha1.bytes_of_string a)) +:+ "_"
  /\ (stateName a = stateName b ->
      sha1.Sum (sha1.bytes_of_string a) = sha1.Sum (sha1.bytes_of_string b)).
Proof.
  assert (Hpre : forall x, take 41 (stateName x)
            = hex.EncodeToString (sha1.Sum (sha1.bytes_of_string x)) +:+ "_").
  { intros x. destruct (stateName_full_shape x) as (_ & _ & Htake). cbv zeta in *.
    unfold stateName. destruct (127 <? len _); [| exact Htake].
    rewrite take_take by lia. exact Htake. }
  split; [apply Hpre |].
  intros Heq.
  pose proof (Hpre a) as Ha. pose proof (Hpre b) as Hb.
  rewrite Heq, Hb in Ha.
  destruct (sha1_Sum_shape (sha1.bytes_of_string a)) as [_ Hra].
  destruct (sha1_Sum_shape (sha1.bytes_of_string b)) as [_ Hrb].
  apply hex_inj; try assumption.
  assert (Hl : String.length (hex.EncodeToString (sha1.Sum (sha1.bytes_of_string b)))
               = String.length (hex.EncodeToString (sha1.Sum (sha1.bytes_of_string a)))).
  { apply Nat2Z.inj.
    fold (len (hex.EncodeToString (sha1.Sum (sha1.bytes_of_string b)))).
    fold (len (hex.EncodeToString (sha1.Sum (sha1.bytes_of_string a)))).
    rewrite !hex_length.
    destruct (sha1_Sum_shape (sha1.bytes_of_string a)) as [-> _].
    destruct (sha1_Sum_shape (sha1.bytes_of_string b)) as [-> _]. reflexivity. }
  apply (f_equal (take (String.length (hex.EncodeToString (sha1.Sum (sha1.bytes_of_string a)))))) in Ha.
  rewrite take_append in Ha. rewrite <- Hl in Ha. rewrite take_append in Ha.
  symmetry. exact Ha.
Qed.

End StateNameMore.

Section StatePathMore.

Context {L : Libs}.
Variable fl : Flags.

(** X6. An address of at most 86 bytes is never truncated: its file name is
    the whole of digest, underscore and sanitized address, and the two
    revisions compute the same path for it. *)
Theorem statePath_short_address (o : Oracle) (addr : string) :
  len addr <= 86 ->
  stateName addr
    = hex.EncodeToString (sha1.Sum (sha1.bytes_of_string addr)) +:+ "_"
        +:+ specialRE_ReplaceAllLiteralString addr "_"
  /\ statePath fl o addr = Legacy.statePath fl o addr.
Proof.
  intros Hlen.
  destruct (stateName_full_shape addr) as (_ & Hfull & _). cbv zeta in Hfull.
  assert (Hname : stateName addr = Legacy.stateName addr).
  { apply stateName_short. unfold Legacy.stateName. lia. }
  split; [exact Hname |].
  unfold statePath, Legacy.statePath. now rewrite Hname.
Qed.

End StatePathMore.

Lemma statePath_short_address_witness :
  len Sample.url <= 86
  /\ statePath (L := Sample.libs) Sample.flags (Sample.serving "Hello") Sample.url
     = Legacy.statePath (L := Sample.libs) Sample.flags (Sample.serving "Hello")
         Sample.url.
Proof.
  assert (H : len Sample.url <= 86) by (vm_compute; discriminate).
  split; [exact H |].
  apply (statePath_short_address (L := Sample.libs) Sample.flags
           (Sample.serving "Hello") Sample.url H).
Defined.

(** ** State I/O and the cycle *)

(** As [split_program], with a lookup just after an insert at the same key
    resolved before it is split on. *)
Ltac split_program_ins :=
  repeat (simpl in *; simplify_eq; rewrite ?lookup_insert_eq in *;
          match goal with
          | H : context [match ?x with _ => _ end] |- _ =>
              lazymatch x with
              | context [match _ with _ => _ end] => fail
              | _ => destruct x eqn:?
              end
          | |- context [match ?x with _ => _ end] =>
              lazymatch x with
              | context [match _ with _ => _ end] => fail
              | _ => destruct x eqn:?
              end
          end);
  simpl in *; simplify_eq; rewrite ?lookup_insert_eq in *.

(** Symbolic execution of one hypothesis, and of the goal with the
    equations at hand used before any further split. *)
Ltac exec_hyp H :=
  cbv beta iota delta
    [returns diffURL Legacy.diffURL call getURLText readState writeState
     Legacy.readState Legacy.writeState statePath Legacy.statePath
     os_ReadFile os_WriteFile os_MkdirAll bind ret emit panic get_files
     put_file] in H;
  repeat (simpl in H; simplify_eq;
          match type of H with
          | context [match ?x with _ => _ end] =>
              lazymatch x with
              | context [match _ with _ => _ end] => fail
              | _ => destruct x eqn:?
              end
          end);
  simpl in H; simplify_eq.

Ltac exec_goal :=
  cbv beta iota delta
    [returns diffURL Legacy.diffURL call getURLText readState writeState
     Legacy.readState Legacy.writeState statePath Legacy.statePath
     os_ReadFile os_WriteFile os_MkdirAll bind ret emit panic get_files
     put_file];
  repeat (simpl;
          first
            [ match goal with
              | Heq : ?x = _ |- context [match ?x with _ => _ end] => rewrite Heq
              end
            | rewrite lookup_insert_eq
            | rewrite String.eqb_refl
            | rewrite Ascii.eqb_refl
            | match goal with
              | |- context [match ?x with _ => _ end] =>
                  lazymatch x with
                  | context [match _ with _ => _ end] => fail
                  | _ => destruct x eqn:?
                  end
              end ]);
  simpl.

Section CycleMore.

Context {L : Libs}.
Variable fl : Flags.

(** X7. What [writeState] has stored, [readState] returns: after a
    successful write of [text] for an address, the state file holds [text],
    every other file is as before, and a read for the same address returns
    [text] with a nil error. *)
Theorem writeState_readState (o : Oracle) (addr text name : string) (w w' : World) :
  statePath fl o addr = (name, None) ->
  ReadFile_fault o name = None ->
  writeState fl o addr text w = Some (None, w') ->
  files w' !! name = Some text
  /\ (forall p, p <> name -> files w' !! p = files w !! p)
  /\ returns (readState fl o addr) w' (text, None).
Proof.
  intros Hpath Hrf Hw.
  unfold_program. split_program_ins.
  all: split; [reflexivity |].
  all: split; [intros p Hp; now apply lookup_insert_ne |].
  all: eexists; reflexivity.
Qed.

(** X8. [diffURL] never changes a file other than the state file of its
    address.  When it returns a nil error, the state file is as it was or
    holds the whole of the fetched text.  When it returns an error, the
    files are as they were unless the write itself failed after the file
    had been opened: then the state file holds the first bytes of the
    fetched text, possibly none.  Whenever a non-empty diff comes back, the
    state file holds the fetched text: a change that is reported is a
    change that is stored. *)
Theorem diffURL_files (o : Oracle) (addr : string) (w w' : World)
    (d : string) (n : Z) (err : option error) :
  diffURL fl o addr w = Some ((d, n, err), w') ->
  exists text ferr,
    returns (getURLText o addr) w (text, ferr)
    /\ (forall p, (forall name, statePath fl o addr = (name, None) -> p <> name) ->
                  files w' !! p = files w !! p)
    /\ (err = None ->
        files w' = files w
        \/ exists name,
             ferr = None /\ statePath fl o addr = (name, None)
             /\ files w' = <[name := text]> (files w))
    /\ (err <> None ->
        files w' = files w
        \/ exists name k,
             ferr = None /\ statePath fl o addr = (name, None)
             /\ WriteFile_fault o name = err
             /\ WriteFile_written o name = Some k
             /\ files w' = <[name := take k text]> (files w))
    /\ (d <> EmptyString ->
        exists name,
          ferr = None /\ statePath fl o addr = (name, None)
          /\ files w' !! name = Some text).
Proof.
  intros H.
  destruct (getURLText o addr w) as [[[text ferr] w1] |] eqn:Hf.
  2: { exfalso. clear H. exec. }
  exists text, ferr. unfold returns. rewrite Hf.
  assert (Hp : forall p, (forall name, statePath fl o addr = (name, None) -> p <> name) ->
                         forall name, statePath fl o addr = (name, None) -> p <> name)
    by auto.
  unfold statePath in Hp at 2.
  exec_hyp H; exec_hyp Hf.
  all: split; [eexists; reflexivity |].
  all: split; [intros p Hne; simpl; try reflexivity;
               apply lookup_insert_ne; intros <-; eapply (Hp _ Hne); reflexivity |].
  all: unfold statePath; simpl;
    repeat match goal with
           | H : _ = _ |- context [match ?x with _ => _ end] => rewrite H
           end.
  all: split; [intros He; try discriminate He;
               first [left; reflexivity | right; eexists; repeat split; reflexivity] |].
  all: split; [intros He; try congruence;
               first [left; reflexivity
                     | right; do 2 eexists; repeat split; first [reflexivity | eassumption]] |].
  all: intros Hd; try congruence.
  all: eexists; split; [reflexivity |]; split; [reflexivity |].
  all: simpl; apply lookup_insert_eq.
Qed.

(** X9. A page that stays the same is reported once: after a run of
    [diffURL] that returned a nil error, a second run that fetches the same
    text, with the state file readable, returns the empty diff, no edits
    and a nil error, and leaves the files as they are. *)
Theorem diffURL_settles (o : Oracle) (addr : string) (w w' : World)
    (d : string) (n : Z) :
  diffURL fl o addr w = Some ((d, n, None), w') ->
  (forall name, statePath fl o addr = (name, None) -> ReadFile_fault o name = None) ->
  exists w'',
    diffURL fl o addr w' = Some ((EmptyString, 0, None), w'')
    /\ files w'' = files w'.
Proof.
  intros H Hrf.
  assert (Hrf' : forall name, statePath fl o addr = (name, None) ->
                              ReadFile_fault o name = None) by exact Hrf.
  clear Hrf. unfold statePath in Hrf'.
  exec_hyp H.
  all: exec_goal.
  all: try (eexists; split; reflexivity).
  all: try (specialize (Hrf' _ eq_refl); congruence).
Qed.

(** X10. A changed page: with a non-empty snapshot on disk that differs
    from the fetched text, and fetch and state I/O succeeding, [diffURL]
    stores the fetched text and returns what the renderer makes of the old
    and the new text, written to an empty builder. *)
Theorem diffURL_changed (o : Oracle) (addr : string) (w : World)
    (old text name : string) :
  returns (getURLText o addr) w (text, None) ->
  statePath fl o addr = (name, None) ->
  files w !! name = Some old ->
  old <> EmptyString ->
  old <> text ->
  ReadFile_fault o name = None ->
  MkdirAll_fault o (filepath_Dir name) = None ->
  WriteFile_fault o name = None ->
  exists sb edits w' tr,
    reportDiffs old text EmptyString = Some (sb, edits)
    /\ diffURL fl o addr w = Some ((sb, edits, None), w')
    /\ trace w' = trace w ++ tr
    /\ called_reportDiffs tr = true
    /\ files w' = <[name := text]> (files w).
Proof.
  intros [w1 Hfetch] Hpath Hsome Hne Hdiff Hrf Hmk Hwf.
  destruct (reportDiffs_total old text EmptyString) as (sb & edits & Hr).
  exists sb, edits. rewrite Hr.
  unfold_program. split_program.
  all: try congruence.
  all: try (match goal with
            | H : (_ =? _)%string = true |- _ =>
                apply String.eqb_eq in H; congruence
            end).
  all: do 2 eexists; split; [reflexivity |]; split; [reflexivity |].
  all: split; [trace_ext |]; split; reflexivity.
Qed.

(** X11. The earlier [diffURL] keeps fetch and read failures to itself.
    With [(text, ferr)], [(old, rerr)] and [werr] what the environment makes
    [getURLText], [readState] and [writeState] of [text] return: after a
    failed fetch, or a read that failed otherwise than by not-found, it
    returns the empty diff, no edits and a nil error, as for an unchanged
    page, and leaves the files alone; it returns a non-nil error exactly
    when the run reaches the write, the texts differ and the write fails,
    and the error is then that of the write. *)
Theorem legacy_diffURL_errors (o : Oracle) (addr : string) (w : World) :
  exists text ferr old rerr werr d n err w' tr,
    returns (getURLText o addr) w (text, ferr)
    /\ returns (Legacy.readState fl o addr) w (old, rerr)
    /\ returns (Legacy.writeState fl o addr text) w werr
    /\ Legacy.diffURL fl o addr w = Some ((d, n, err), w')
    /\ trace w' = trace w ++ tr
    /\ (ferr <> None \/ (rerr <> None /\ os_IsNotExist rerr = false) ->
        (d, n, err) = (EmptyString, 0, None) /\ files w' = files w
        /\ wrote_file tr = false)
    /\ (fetch_failed tr = true <-> ferr <> None)
    /\ (read_failed tr = true
        <-> ferr = None /\ rerr <> None /\ os_IsNotExist rerr = false)
    /\ (write_failed tr = true
        <-> ferr = None /\ (rerr = None \/ os_IsNotExist rerr = true)
            /\ old <> text /\ werr <> None)
    /\ (err <> None <-> write_failed tr = true)
    /\ (err <> None -> err = werr /\ d = EmptyString /\ n = 0).
Proof.
  destruct (Legacy.diffURL fl o addr w) as [[[[d n] err] w'] |] eqn:H.
  2: { exfalso. exec.
       all: match goal with
            | H : reportDiffs ?a ?b ?c = None |- _ =>
                destruct (reportDiffs_total a b c) as (? & ? & ?); congruence
            end. }
  destruct (getURLText o addr w) as [[[text ferr] w1] |] eqn:Hf.
  2: { exfalso. clear H. exec. }
  destruct (Legacy.readState fl o addr w) as [[[old rerr] w2] |] eqn:Hr.
  2: { exfalso. clear H Hf. exec. }
  destruct (Legacy.writeState fl o addr text w) as [[werr w3] |] eqn:Hw.
  2: { exfalso. clear H Hf Hr. exec. }
  exists text, ferr, old, rerr, werr, d, n, err, w'.
  unfold returns. rewrite Hf, Hr, Hw.
  exec.
  all: eexists; split; [eexists; reflexivity |]; split; [eexists; reflexivity |];
    split; [eexists; reflexivity |]; split; [reflexivity |];
    split; [trace_ext |]; simpl.
  all: repeat match goal with
              | H : (_ =? _)%string = false |- _ => apply String.eqb_neq in H
              | H : (_ =? _)%string = true |- _ => apply String.eqb_eq in H; subst
              end.
  all: repeat split; intros; simpl in *; try congruence; try discriminate.
  all: try solve [intuition (try congruence; try discriminate; eauto 10)].
Qed.

(** X12. [getURLText] changes no file; whenever it returns an error the
    text it returns is empty; and when the request cannot even be
    constructed, nothing is sent. *)
Theorem getURLText_behaviour (o : Oracle) (addr : string) (w : World) :
  exists text err tr,
    getURLText o addr w
      = Some ((text, err), {| files := files w; trace := trace w ++ tr |})
    /\ (err <> None -> text = EmptyString)
    /\ (NewRequest_err o addr <> None -> err <> None /\ sent_request tr = false)
    /\ wrote_file tr = false.
Proof.
  unfold getURLText, bind, ret, emit.
  destruct (NewRequest_err o addr) as [e |] eqn:Hn.
  - exists EmptyString, (Some e), []. simpl. rewrite app_nil_r.
    destruct w; simpl. repeat split; congruence.
  - destruct (Do_err o addr) as [e |]; simpl.
    + do 3 eexists. split; [reflexivity |]. repeat split; congruence.
    + destruct (ReadAll o addr) as [body [e |]]; simpl.
      * do 3 eexists. split; [reflexivity |]. repeat split; congruence.
      * destruct (html2text_FromString o body) as [text [e |]]; simpl.
        -- do 3 eexists. split; [reflexivity |]. repeat split; congruence.
        -- do 3 eexists. split; [reflexivity |]. repeat split; congruence.
Qed.

End CycleMore.

Lemma writeState_readState_witness :
  exists w',
    writeState (L := Sample.libs) Sample.flags (Sample.serving "Hello") Sample.url
      "Hello" Sample.empty_world = Some (None, w')
    /\ files w' !! Sample.url_file = Some "Hello"
    /\ returns (readState (L := Sample.libs) Sample.flags (Sample.serving "Hello")
                  Sample.url) w' ("Hello", None).
Proof.
  assert (Hw : exists w',
             writeState (L := Sample.libs) Sample.flags (Sample.serving "Hello")
               Sample.url "Hello" Sample.empty_world = Some (None, w'))
    by (eexists; reflexivity).
  destruct Hw as [w' Hw]. exists w'. split; [exact Hw |].
  destruct (writeState_readState (L := Sample.libs) Sample.flags
              (Sample.serving "Hello") Sample.url "Hello" Sample.url_file
              Sample.empty_world w' (url_file_path _) eq_refl Hw)
    as (Hfile & _ & Hread).
  split; assumption.
Defined.

Lemma diffURL_files_witness :
  exists w',
    diffURL (L := Sample.libs) Sample.flags (Sample.serving "Hello") Sample.url
      Sample.empty_world = Some (("(initial fetch)", 0, None), w')
    /\ exists text ferr,
        returns (getURLText (Sample.serving "Hello") Sample.url)
          Sample.empty_world (text, ferr)
        /\ exists name,
            ferr = None
            /\ statePath (L := Sample.libs) Sample.flags (Sample.serving "Hello")
                 Sample.url = (name, None)
            /\ files w' !! name = Some text.
Proof.
  assert (Hd : exists w',
             diffURL (L := Sample.libs) Sample.flags (Sample.serving "Hello")
               Sample.url Sample.empty_world
             = Some (("(initial fetch)", 0, None), w'))
    by (eexists; reflexivity).
  destruct Hd as [w' Hd].
  destruct (diffURL_files (L := Sample.libs) Sample.flags (Sample.serving "Hello")
              Sample.url Sample.empty_world w' _ _ _ Hd)
    as (text & ferr & Hf & _ & _ & _ & Hshown).
  exists w'. split; [exact Hd |].
  exists text, ferr. split; [exact Hf |].
  apply Hshown. discriminate.
Defined.

Example diffURL_failed_write_truncates :
  option_map (fun r => (fst r, files (snd r) !! Sample.url_file))
    (diffURL (L := Sample.libs) Sample.flags
       (Sample.disk_full (Sample.serving "Hello there")) Sample.url
       (Sample.world_with "Hello world"))
  = Some ((EmptyString, 0, Some (ErrOther "write: no space left on device")),
          Some EmptyString).
Proof. vm_compute. reflexivity. Qed.

Lemma diffURL_settles_witness :
  exists w' w'',
    diffURL (L := Sample.libs) Sample.flags (Sample.serving "Hello") Sample.url
      Sample.empty_world = Some (("(initial fetch)", 0, None), w')
    /\ diffURL (L := Sample.libs) Sample.flags (Sample.serving "Hello") Sample.url
         w' = Some ((EmptyString, 0, None), w'')
    /\ files w'' = files w'.
Proof.
  assert (Hd : exists w',
             diffURL (L := Sample.libs) Sample.flags (Sample.serving "Hello")
               Sample.url Sample.empty_world
             = Some (("(initial fetch)", 0, None), w'))
    by (eexists; reflexivity).
  destruct Hd as [w' Hd].
  destruct (diffURL_settles (L := Sample.libs) Sample.flags (Sample.serving "Hello")
              Sample.url Sample.empty_world w' _ _ Hd)
    as (w'' & H2 & Hf).
  - intros name _. reflexivity.
  - exists w', w''. split; [exact Hd |]. split; assumption.
Defined.

Lemma diffURL_changed_witness :
  exists sb edits w' tr,
    reportDiffs (L := Sample.libs) "Hello world" "Hello there" EmptyString
      = Some (sb, edits)
    /\ diffURL (L := Sample.libs) Sample.flags (Sample.serving "Hello there")
         Sample.url (Sample.world_with "Hello world")
       = Some ((sb, edits, None), w')
    /\ trace w' = trace (Sample.world_with "Hello world") ++ tr
    /\ called_reportDiffs tr = true
    /\ files w' = <[Sample.url_file := "Hello there"]>
                    (files (Sample.world_with "Hello world")).
Proof.
  apply (diffURL_changed (L := Sample.libs) Sample.flags
           (Sample.serving "Hello there") Sample.url
           (Sample.world_with "Hello world") "Hello world" "Hello there"
           Sample.url_file).
  - apply serving_fetch.
  - apply url_file_path.
  - apply world_with_file.
  - discriminate.
  - discriminate.
  - reflexivity.
  - reflexivity.
  - reflexivity.
Defined.

Example diffURL_changed_run :
  option_map fst
    (diffURL (L := Sample.libs) Sample.flags (Sample.serving "Hello there")
       Sample.url (Sample.world_with "Hello world"))
  = Some ("Hello " +:+ String esc "[31mworld" +:+ String esc "[0m"
            +:+ String esc "[32mthere" +:+ String esc "[0m", 2, None).
Proof. vm_compute. reflexivity. Qed.

(** ** The loop, over many passes *)

Section LoopMore.

Context {L : Libs}.
Variable fl : Flags.

(** [diffURL] logs no warning and shows no desktop notification, and the
    only file it can change is the state file of its address. *)
Lemma diffURL_quiet (o : Oracle) (addr : string) (w w' : World)
    (r : string * Z * option error) :
  diffURL fl o addr w = Some (r, w') ->
  exists tr,
    trace w' = trace w ++ tr
    /\ warned tr = false
    /\ notified_desktop tr = false
    /\ (forall p, (forall name, statePath fl o addr = (name, None) -> p <> name) ->
                  files w' !! p = files w !! p).
Proof.
  intros H.
  assert (Hp : forall p, (forall name, statePath fl o addr = (name, None) -> p <> name) ->
                         forall name, statePath fl o addr = (name, None) -> p <> name)
    by auto.
  unfold statePath in Hp at 2.
  exec_hyp H.
  all: eexists; split; [trace_ext |]; split; [reflexivity |];
    split; [reflexivity |].
  all: intros p Hne; simpl; try reflexivity.
  all: apply lookup_insert_ne; intros <-; eapply (Hp _ Hne); reflexivity.
Qed.

(** The whole tick in terms of its three parts. *)
Lemma watch_tick_parts (o : Oracle) (addr : string) (every jitter : Z) (w : World) :
  exists t tr0 d n err w1 tr1 s tr2,
    (forall w0, reset_timer o addr every jitter w0
                = Some (t, {| files := files w0; trace := trace w0 ++ tr0 |}))
    /\ diffURL fl o addr {| files := files w; trace := trace w ++ tr0 |}
       = Some ((d, n, err), w1)
    /\ trace w1 = trace w ++ tr0 ++ tr1
    /\ watch_tick fl o addr every jitter w
       = Some (s, {| files := files w1; trace := trace w1 ++ tr2 |})
    /\ (every <= 0 -> t = None /\ tr0 = [])
    /\ (0 < every -> exists j, t = Some (Duration.add every j))
    /\ warned tr0 = false /\ warned tr1 = false
    /\ (macNotify fl = false -> notified_desktop (tr0 ++ tr1 ++ tr2) = false)
    /\ match
         match err,
               (if 0 <? requestTimeout fl
                then timeout_ctx_Err o (requestTimeout fl)
                else shared_ctx_Err o) with
         | None, Some cause => Some (ErrChecking addr cause)
         | _, _ => err
         end
       with
       | Some e => s = Looping t /\ tr2 = [EvWarning (MsgChecking addr e)]
       | None =>
           s = (if every <=? 0 then Returned else Looping t)
           /\ warned tr2 = false
           /\ (every <= 0 -> last tr2 = Some (EvInfo MsgBailing))
       end.
Proof.
  assert (Hreset : exists t tr0,
            (forall w0, reset_timer o addr every jitter w0
                        = Some (t, {| files := files w0; trace := trace w0 ++ tr0 |}))
            /\ (every <= 0 -> t = None /\ tr0 = [])
            /\ (0 < every -> exists j, t = Some (Duration.add every j))
            /\ warned tr0 = false /\ notified_desktop tr0 = false).
  { destruct (Z.ltb_spec 0 every) as [He | He].
    - destruct (reset_timer_spec o addr every jitter)
        as (t & tr0 & Hreset & _ & _ & _ & _ & Ht).
      destruct (Ht He) as (j & -> & _).
      exists (Some (Duration.add every j)), tr0.
      split; [exact Hreset |]. split; [lia |]. split; [eauto |].
      specialize (Hreset {| files := ∅; trace := [] |}).
      unfold reset_timer, rand_Int63n, bind, ret, emit, panic in Hreset.
      destruct (Z.ltb_spec 0 every); [| lia].
      destruct (0 <? jitter); [destruct (_ <=? 0); [discriminate |] |];
        simpl in Hreset; injection Hreset as _ <-; split; reflexivity.
    - exists None, []. split.
      + intros [fs tr]. unfold reset_timer.
        destruct (Z.ltb_spec 0 every); [lia |].
        unfold ret. simpl. now rewrite app_nil_r.
      + split; [auto |]. split; [lia |]. split; reflexivity. }
  destruct Hreset as (t & tr0 & Hreset & Hone & Hrep & Hw0 & Hn0).
  destruct (diffURL_total fl o addr {| files := files w; trace := trace w ++ tr0 |})
    as ([[d n] err] & w1 & Hd).
  destruct (diffURL_quiet o addr _ _ _ Hd) as (tr1 & Htr1 & Hw1 & Hn1 & _).
  simpl in Htr1. rewrite <- app_assoc in Htr1.
  exists t, tr0, d, n, err, w1, tr1.
  unfold watch_tick, bind. rewrite Hreset.
  unfold diffURLWithTimeout, bind. rewrite Hd.
  unfold notify, bind, ret, emit.
  destruct err as [e |];
    destruct (if 0 <? requestTimeout fl
              then timeout_ctx_Err o (requestTimeout fl)
              else shared_ctx_Err o) as [c |];
    simpl.
  1-3: do 2 eexists; split; [exact Hreset |]; split; [reflexivity |];
       split; [exact Htr1 |]; split; [reflexivity |];
       repeat (split; [assumption |]);
       (split; [intros _; unfold notified_desktop in *;
                rewrite !existsb_app, Hn0, Hn1; reflexivity |]);
       split; reflexivity.
  destruct (negb (d =? "")%string), (logFullDiff fl), (macNotify fl),
    (macClipboard fl), (Z.leb_spec every 0); simpl.
  all: do 2 eexists; split; [exact Hreset |]; split; [reflexivity |];
    split; [exact Htr1 |];
    split; [rewrite <- ?app_assoc; reflexivity |].
  all: repeat (split; [assumption |]).
  all: (split; [intros Hm; try discriminate Hm; unfold notified_desktop in *;
                rewrite !existsb_app, Hn0, Hn1; reflexivity |]).
  all: split; [reflexivity |]; split; [reflexivity |]; intros; first [reflexivity | lia].
Qed.

Lemma watch_run_ticks (addr : string) (every jitter : Z) (os : list Oracle) :
  0 < every ->
  forall d w,
  exists d' w',
    watch_run fl addr every jitter (map TimerC os) (Looping (Some d), w)
    = Some (Looping (Some d'), w').
Proof.
  intros He. induction os as [|o os IH]; intros d w; simpl; [eauto |].
  destruct (watch_tick_repeat fl o addr every jitter w He)
    as (t & tr0 & w1 & Hreset & Htick).
  destruct (reset_timer_spec o addr every jitter)
    as (t' & tr0' & Hreset' & _ & _ & _ & _ & Ht).
  pose proof (Hreset w) as H1. rewrite Hreset' in H1. injection H1 as <- _.
  destruct (Ht He) as (j & -> & _).
  rewrite Htick. apply IH.
Qed.

Lemma watch_run_returned (addr : string) (every jitter : Z)
    (cs : list select_case) (w : World) (st : status * World) :
  watch_run fl addr every jitter cs (Returned, w) = Some st -> cs = [].
Proof. destruct cs as [|[|o] cs]; simpl; [reflexivity | discriminate..]. Qed.

(** X13. In repeat mode the loop serves any number of ticks, whatever
    happens in them, and after each the timer is set again; it returns only
    when the context is cancelled, and then at once. *)
Theorem watch_repeat_mode (addr : string) (every jitter : Z) :
  0 < every ->
  (forall os w,
     exists d w',
       watch_run fl addr every jitter (map TimerC os) (watch_init w)
       = Some (Looping (Some d), w'))
  /\ (forall cs w w',
        watch_run fl addr every jitter cs (watch_init w) = Some (Returned, w') ->
        last cs = Some CtxDone)
  /\ (forall os w,
        exists w',
          watch_run fl addr every jitter (map TimerC os ++ [CtxDone]) (watch_init w)
          = Some (Returned, w')).
Proof.
  intros He. split; [| split].
  - intros os w. apply watch_run_ticks. exact He.
  - unfold watch_init. generalize Duration.Nanosecond as d.
    intros d cs. revert d.
    induction cs as [|c cs IH]; intros d w w' H; simpl in H; [discriminate |].
    destruct c as [| o].
    + apply watch_run_returned in H. now subst.
    + destruct (watch_tick_repeat fl o addr every jitter w He)
        as (t & tr0 & w1 & Hreset & Htick).
      destruct (reset_timer_spec o addr every jitter)
        as (t' & tr0' & Hreset' & _ & _ & _ & _ & Ht).
      pose proof (Hreset w) as H1. rewrite Hreset' in H1. injection H1 as <- _.
      destruct (Ht He) as (j & -> & _).
      rewrite Htick in H.
      destruct cs as [|c' cs']; [simpl in H; discriminate |].
      change (last (TimerC o :: c' :: cs')) with (last (c' :: cs')).
      eapply IH. exact H.
  - intros os w.
    destruct (watch_run_ticks addr every jitter os He Duration.Nanosecond w)
      as (d & w' & Hrun).
    exists w'. unfold watch_init.
    revert Hrun. generalize (Looping (Some Duration.Nanosecond), w) as st.
    induction os as [|o os IH]; intros st Hrun; simpl in *.
    + injection Hrun as ->. reflexivity.
    + destruct (watch_step_fn fl addr every jitter st (TimerC o)); [| discriminate].
      now apply IH.
Qed.

Lemma watch_tick_oneshot_status (o : Oracle) (addr : string) (every jitter : Z)
    (w w' : World) (s : status) :
  every <= 0 ->
  watch_tick fl o addr every jitter w = Some (s, w') ->
  s = Returned \/ s = Looping None.
Proof.
  intros He H.
  destruct (watch_tick_parts o addr every jitter w)
    as (t & tr0 & d & n & err & w1 & tr1 & s' & tr2
        & _ & _ & _ & Htick & Hone & _ & _ & _ & _ & Hs).
  rewrite Htick in H. injection H as <- _.
  destruct (Hone He) as [-> _].
  destruct (match err with Some _ => _ | None => _ end).
  - right. tauto.
  - destruct Hs as [-> _]. destruct (Z.leb_spec every 0); [now left | lia].
Qed.

Lemma watch_run_no_more_ticks (addr : string) (every jitter : Z)
    (cs : list select_case) (s : status) (w : World) (st : status * World) :
  s = Returned \/ s = Looping None ->
  watch_run fl addr every jitter cs (s, w) = Some st ->
  List.filter is_TimerC cs = [].
Proof.
  revert s w. induction cs as [|c cs IH]; intros s w Hs H; [reflexivity |].
  destruct Hs as [-> | ->]; destruct c as [| o]; simpl in H; try discriminate.
  simpl. eapply IH; [| exact H]. now left.
Qed.

(** X14. In one-shot mode the loop runs at most one tick: however the first
    tick ends, the timer is not set again, and no sequence of passes through
    the [select] contains a second fetch. *)
Theorem watch_oneshot_single_tick (addr : string) (every jitter : Z)
    (cs : list select_case) (w : World) (st : status * World) :
  every <= 0 ->
  watch_run fl addr every jitter cs (watch_init w) = Some st ->
  (length (List.filter is_TimerC cs) <= 1)%nat.
Proof.
  intros He H. destruct cs as [|c cs]; [simpl; lia |].
  destruct c as [| o]; simpl in H.
  - apply watch_run_returned in H. subst. simpl. lia.
  - destruct (watch_tick fl o addr every jitter w) as [[s w1] |] eqn:Htick;
      [| discriminate].
    apply watch_tick_oneshot_status in Htick; [| exact He].
    simpl. rewrite (watch_run_no_more_ticks _ _ _ _ _ _ _ Htick H). simpl. lia.
Qed.

(** X15. In one-shot mode a tick makes [watch] return exactly when it logged
    no warning, that is when the check came back without error; it then
    ends on the notice that it is bailing.  Otherwise the loop goes on with
    the timer spent. *)
Theorem watch_oneshot_tick_outcome (o : Oracle) (addr : string)
    (every jitter : Z) (w : World) :
  every <= 0 ->
  exists s w' tr,
    watch_tick fl o addr every jitter w = Some (s, w')
    /\ trace w' = trace w ++ tr
    /\ (s = Returned <-> warned tr = false)
    /\ (s = Returned -> last tr = Some (EvInfo MsgBailing))
    /\ (s <> Returned -> s = Looping None).
Proof.
  intros He.
  destruct (watch_tick_parts o addr every jitter w)
    as (t & tr0 & d & n & err & w1 & tr1 & s & tr2
        & _ & _ & Htr1 & Htick & Hone & _ & Hw0 & Hw1 & _ & Hs).
  destruct (Hone He) as [-> ->].
  exists s. eexists. exists (tr1 ++ tr2).
  split; [exact Htick |]. simpl in *.
  split; [rewrite Htr1; now rewrite <- app_assoc |].
  unfold warned in *. rewrite existsb_app, Hw1. simpl.
  destruct (match err with Some _ => _ | None => _ end).
  - destruct Hs as [-> ->]. simpl.
    split; [split; discriminate |]. split; [discriminate | reflexivity].
  - destruct Hs as (-> & Hw2 & Hlast).
    destruct (Z.leb_spec every 0); [| lia].
    split; [split; [intros _; exact Hw2 | reflexivity] |].
    split; [| congruence].
    intros _. specialize (Hlast He).
    destruct tr2 as [|e2 tr2]; [discriminate |].
    rewrite last_app. now rewrite Hlast.
Qed.

(** X16. With a state directory that needs no home directory, a loop for an
    address changes no file other than the state file of that address,
    over any sequence of ticks in any environments. *)
Theorem watch_run_own_file (addr : string) (every jitter : Z)
    (cs : list select_case) (st st' : status * World) (p : string) :
  HasPrefixByte (stateDir fl) "~" = false ->
  watch_run fl addr every jitter cs st = Some st' ->
  p <> filepath_Join (stateDir fl) (stateName addr) ->
  files (snd st') !! p = files (snd st) !! p.
Proof.
  intros Hdir. revert st.
  induction cs as [|c cs IH]; intros st H Hp; simpl in H.
  - now injection H as <-.
  - destruct (watch_step_fn fl addr every jitter st c) as [st1 |] eqn:Hstep;
      [| discriminate].
    rewrite (IH _ H Hp).
    destruct st as [[[d |] |] w], c as [| o]; simpl in Hstep; try discriminate;
      try (injection Hstep as <-; reflexivity).
    destruct (watch_tick_parts o addr every jitter w)
      as (t & tr0 & d0 & n & err & w1 & tr1 & s & tr2 & _ & Hd & _ & Htick & _).
    rewrite Htick in Hstep. injection Hstep as <-. simpl.
    destruct (diffURL_quiet o addr _ _ _ Hd) as (_ & _ & _ & _ & Hframe).
    simpl in Hframe. apply Hframe.
    intros name. unfold statePath. rewrite Hdir. intros [= <-]. exact Hp.
Qed.

End LoopMore.

Lemma watch_repeat_mode_witness :
  0 < 300000000000
  /\ forall os w,
      exists d w',
        watch_run (L := Sample.libs) Sample.flags Sample.url 300000000000
          120000000000 (map TimerC os) (watch_init w)
        = Some (Looping (Some d), w').
Proof.
  split; [lia |].
  apply (watch_repeat_mode (L := Sample.libs) Sample.flags Sample.url
           300000000000 120000000000).
  lia.
Defined.

Lemma watch_oneshot_single_tick_witness :
  exists st,
    watch_run (L := Sample.libs) Sample.flags Sample.url 0 120000000000
      [TimerC (Sample.serving "Hello")] (watch_init Sample.empty_world)
    = Some st
    /\ fst st = Returned
    /\ (length (List.filter is_TimerC [TimerC (Sample.serving "Hello")]) <= 1)%nat.
Proof.
  destruct (watch_run (L := Sample.libs) Sample.flags Sample.url 0 120000000000
              [TimerC (Sample.serving "Hello")] (watch_init Sample.empty_world))
    as [st |] eqn:H; [| vm_compute in H; discriminate].
  exists st. split; [reflexivity |].
  split.
  - vm_compute in H. injection H as <-. reflexivity.
  - apply (watch_oneshot_single_tick (L := Sample.libs) Sample.flags Sample.url
             0 120000000000 _ Sample.empty_world st); [lia | exact H].
Defined.

Lemma watch_oneshot_tick_outcome_witness :
  exists s w' tr,
    watch_tick (L := Sample.libs) Sample.flags Sample.unreachable Sample.url
      0 120000000000 Sample.empty_world = Some (s, w')
    /\ trace w' = trace Sample.empty_world ++ tr
    /\ (s = Returned <-> warned tr = false)
    /\ (s = Returned -> last tr = Some (EvInfo MsgBailing))
    /\ (s <> Returned -> s = Looping None).
Proof.
  apply (watch_oneshot_tick_outcome (L := Sample.libs) Sample.flags
           Sample.unreachable Sample.url 0 120000000000 Sample.empty_world).
  lia.
Defined.

Lemma watch_run_own_file_witness :
  exists st',
    watch_run (L := Sample.libs) Sample.flags Sample.url 0 120000000000
      [TimerC (Sample.serving "Hello")] (watch_init Sample.empty_world)
    = Some st'
    /\ files (snd st') !! "/mnt/data/other" = None.
Proof.
  destruct (watch_run (L := Sample.libs) Sample.flags Sample.url 0 120000000000
              [TimerC (Sample.serving "Hello")] (watch_init Sample.empty_world))
    as [st' |] eqn:H; [| vm_compute in H; discriminate].
  exists st'. split; [reflexivity |].
  rewrite (watch_run_own_file (L := Sample.libs) Sample.flags Sample.url
             0 120000000000 _ _ st' "/mnt/data/other" eq_refl H).
  - reflexivity.
  - vm_compute. discriminate.
Defined.

(** ** Notification, the earlier loop, and start-up *)

Section NotifyMore.

Context {L : Libs}.
Variable fl : Flags.


(** X18. The earlier loop cannot tell a failed fetch from an unchanged
    page: in one-shot mode a tick whose fetch fails logs no warning, notes
    that nothing changed, and returns as after a successful check, with
    the files as they were. *)
Theorem legacy_watch_failed_fetch (o : Oracle) (addr : string) (jitter : Z)
    (w : World) (s : string) (e : error) :
  returns (getURLText o addr) w (s, Some e) ->
  exists w' tr,
    Legacy.watch_tick fl o addr 0 jitter w = Some (Returned, w')
    /\ trace w' = trace w ++ tr
    /\ warned tr = false
    /\ In (EvV 1 (MsgNoChange addr)) tr
    /\ last tr = Some (EvInfo MsgBailing)
    /\ files w' = files w.
Proof.
  intros [w1 Hfetch].
  unfold Legacy.watch_tick, reset_timer. simpl.
  exec_hyp Hfetch.
  all: exec_goal.
  all: do 2 eexists; split; [reflexivity |]; split; [trace_ext |].
  all: simpl; split; [reflexivity |]; split; [auto 10 |]; split; reflexivity.
Qed.

(** X19. In the earlier loop a negative interval is neither repeat mode nor
    one-shot mode: the timer is not set again, since [every] is not
    positive, and [watch] does not return, since [every] is not zero; every
    tick, whatever its outcome, leaves the loop waiting with the timer
    spent. *)
Theorem legacy_watch_negative_interval (o : Oracle) (addr : string)
    (every jitter : Z) (w : World) :
  every < 0 ->
  exists w', Legacy.watch_tick fl o addr every jitter w = Some (Looping None, w').
Proof.
  intros He.
  unfold Legacy.watch_tick, reset_timer, bind, ret.
  destruct (Z.ltb_spec 0 every); [lia |].
  destruct (Z.eqb_spec every 0); [lia |].
  destruct (Legacy.diffURL fl o addr w) as [[[[d k] err] w1] |] eqn:Hd.
  - destruct err; simpl.
    + unfold emit. eauto.
    + destruct (negb (d =? "")%string), (logFullDiff fl), (macNotify fl);
        simpl; unfold emit; eauto.
  - exfalso. exec_hyp Hd.
    all: match goal with
         | H : reportDiffs ?a ?b ?c = None |- _ =>
             destruct (reportDiffs_total a b c) as (? & ? & ?); congruence
         end.
Qed.

End NotifyMore.

Lemma legacy_watch_failed_fetch_witness :
  exists w' tr,
    Legacy.watch_tick (L := Sample.libs) Sample.flags Sample.unreachable Sample.url
      0 120000000000 Sample.empty_world = Some (Returned, w')
    /\ trace w' = trace Sample.empty_world ++ tr
    /\ warned tr = false
    /\ In (EvV 1 (MsgNoChange Sample.url)) tr
    /\ last tr = Some (EvInfo MsgBailing)
    /\ files w' = files Sample.empty_world.
Proof.
  apply (legacy_watch_failed_fetch (L := Sample.libs) Sample.flags
           Sample.unreachable Sample.url 120000000000 Sample.empty_world
           EmptyString (ErrOther "dial tcp: connection refused")).
  eexists. reflexivity.
Defined.

Lemma legacy_watch_negative_interval_witness :
  exists w',
    Legacy.watch_tick (L := Sample.libs) Sample.flags (Sample.serving "Hello")
      Sample.url (-1) 0 Sample.empty_world = Some (Looping None, w').
Proof.
  apply (legacy_watch_negative_interval (L := Sample.libs) Sample.flags
           (Sample.serving "Hello") Sample.url (-1) 0 Sample.empty_world).
  lia.
Defined.

Section StartupMore.

Context {L : Libs}.

Lemma fold_isSet (name : string) (l : list (string * string)) (b : bool) :
  fold_left (fun isSet f => if String.eqb (fst f) name then true else isSet) l b
  = b || existsb (fun f => String.eqb (fst f) name) l.
Proof.
  revert b. induction l as [|f l IH]; intros b; simpl.
  - now rewrite orb_false_r.
  - rewrite IH. destruct (String.eqb (fst f) name), b; reflexivity.
Qed.

Lemma flagIsSet_lookup (s : Startup) (name : string) :
  flagIsSet s name = true <-> is_Some (actual s !! name).
Proof.
  unfold flagIsSet. rewrite fold_isSet. simpl. rewrite existsb_exists.
  split.
  - intros ([k v] & Hin & Hk). simpl in Hk. apply String.eqb_eq in Hk. subst k.
    apply list_elem_of_In, elem_of_map_to_list in Hin. eauto.
  - intros [v Hv]. exists (name, v). split.
    + apply list_elem_of_In, elem_of_map_to_list. exact Hv.
    + simpl. apply String.eqb_refl.
Qed.

Lemma main_setup_macNotify (goos : string) (s : Startup) :
  goos <> "darwin" -> macNotify (flags (main_setup goos s)) = false.
Proof.
  intros Hos. unfold main_setup.
  destruct (String.eqb_spec goos "darwin"); [contradiction |]. simpl.
  destruct (negb _ && _); reflexivity.
Qed.

(** X20. [flagIsSet name] is true exactly when the flag [name] is among
    the flags that have been set: it is true once the flag has been set to
    any value, and false on a command line that set none. *)
Theorem flagIsSet_spec (s : Startup) (name : string) (value : string) :
  (flagIsSet s name = true <-> is_Some (actual s !! name))
  /\ flagIsSet {| flags := flags s; actual := <[name := value]> (actual s) |} name
     = true
  /\ flagIsSet {| flags := flags s; actual := ∅ |} name = false.
Proof.
  split; [apply flagIsSet_lookup |]. split.
  - apply flagIsSet_lookup. simpl. rewrite lookup_insert_eq. eauto.
  - destruct (flagIsSet _ name) eqn:H; [| reflexivity].
    apply flagIsSet_lookup in H. simpl in H. rewrite lookup_empty in H.
    destruct H as [? H]. discriminate.
Qed.

(** X21. The adjustments at the head of [main]: on an operating system
    other than darwin the desktop notification is switched off, on darwin
    it is left as given; whenever the full diff goes to the log, one of
    [logtostderr] and [alsologtostderr] is set afterwards; and the state
    directory, the timeout, the log mode and the clipboard flag are never
    touched. *)
Theorem main_setup_effects (goos : string) (s : Startup) :
  let s' := main_setup goos s in
  (goos <> "darwin" -> macNotify (flags s') = false)
  /\ (goos = "darwin" -> macNotify (flags s') = macNotify (flags s))
  /\ (logFullDiff (flags s') = true ->
      flagIsSet s' "logtostderr" || flagIsSet s' "alsologtostderr" = true)
  /\ stateDir (flags s') = stateDir (flags s)
  /\ requestTimeout (flags s') = requestTimeout (flags s)
  /\ logFullDiff (flags s') = logFullDiff (flags s)
  /\ macClipboard (flags s') = macClipboard (flags s).
Proof.
  cbv zeta. unfold main_setup.
  set (s1 := if negb (goos =? "darwin")%string then Set_macos_notify_0 s else s).
  assert (H1 : (goos <> "darwin" -> macNotify (flags s1) = false)
               /\ (goos = "darwin" -> macNotify (flags s1) = macNotify (flags s))
               /\ stateDir (flags s1) = stateDir (flags s)
               /\ requestTimeout (flags s1) = requestTimeout (flags s)
               /\ logFullDiff (flags s1) = logFullDiff (flags s)
               /\ macClipboard (flags s1) = macClipboard (flags s)).
  { subst s1. destruct (String.eqb_spec goos "darwin"); simpl; tauto. }
  clearbody s1. destruct H1 as (Hn & Hd & Hs & Ht & Hl & Hc).
  destruct (negb (flagIsSet s1 "logtostderr" || flagIsSet s1 "alsologtostderr")
            && logFullDiff (flags s1)) eqn:Hcond.
  - simpl. repeat split; try assumption.
    intros _. apply orb_true_iff. right.
    apply flagIsSet_lookup. simpl. rewrite lookup_insert_eq. eauto.
  - repeat split; try assumption.
    intros Hfull. rewrite Hfull, andb_true_r in Hcond.
    now apply negb_false_iff in Hcond.
Qed.

(** X22. On an operating system other than darwin, a tick run under the
    flags as [main] leaves them never shows a desktop notification. *)
Theorem watch_tick_no_desktop_notification (goos : string) (s : Startup)
    (o : Oracle) (addr : string) (every jitter : Z) (w : World) :
  goos <> "darwin" ->
  exists st w' tr,
    watch_tick (flags (main_setup goos s)) o addr every jitter w = Some (st, w')
    /\ trace w' = trace w ++ tr
    /\ notified_desktop tr = false.
Proof.
  intros Hos.
  pose proof (main_setup_macNotify goos s Hos) as Hm.
  destruct (watch_tick_parts (flags (main_setup goos s)) o addr every jitter w)
    as (t & tr0 & d & n & err & w1 & tr1 & st & tr2
        & _ & _ & Htr1 & Htick & _ & _ & _ & _ & Hnd & _).
  exists st. eexists. exists (tr0 ++ tr1 ++ tr2).
  split; [exact Htick |]. simpl.
  split; [rewrite Htr1, <- !app_assoc; reflexivity |].
  apply Hnd. exact Hm.
Qed.

End StartupMore.

Lemma watch_tick_no_desktop_notification_witness :
  let s := {| flags := {| stateDir := "/mnt/data";
                          requestTimeout := 30000000000;
                          logFullDiff := false;
                          macNotify := true;
                          macClipboard := false |};
              actual := ∅ |} in
  "linux" <> "darwin"
  /\ exists st w' tr,
      watch_tick (L := Sample.libs) (flags (main_setup "linux" s))
        (Sample.serving "Hello") Sample.url 0 0 Sample.empty_world
      = Some (st, w')
      /\ trace w' = trace Sample.empty_world ++ tr
      /\ notified_desktop tr = false.
Proof.
  intros s.
  assert (Hos : "linux" <> "darwin") by discriminate.
  split; [exact Hos |].
  apply (watch_tick_no_desktop_notification (L := Sample.libs) "linux" s
           (Sample.serving "Hello") Sample.url 0 0 Sample.empty_world Hos).
Defined.
